(** * langfuse-go: the TTL cache and the prompt resolver

    A shallow embedding of [internal/pkg/cache/cache.go] and of the prompt
    path of [langfuse.go] ([GetPrompt], [buildPromptCacheKey],
    [fetchPrompt], [parsePromptResponse]), followed by the properties of the
    caching and fallback policy.  The embedding also covers the template
    functions of package [model] ([indexOf], [replaceAll], the two
    [Compile] methods and the accessors of [Prompt]) and the ingestion
    calls of [langfuse.go] ([Trace], [Generation], [GenerationEnd],
    [Score], [Span], [SpanEnd], [Event]).

    Conventions of the embedding:
    - a Go [string] and a [[]byte] are a Rocq [string] (a sequence of bytes);
    - a Go [int] and a [time.Duration] are a [Z];
    - a [time.Time] is the instant it denotes, counted in nanoseconds, and
      every reading of [time.Now()] is an explicit argument of the operation
      that reads the clock;
    - a Go pointer that may be [nil] is an [option];
    - a Go map is a [gmap]; the mutex of the cache serialises the operations,
      so each operation is a function from the state before to the state
      after. *)

From stdpp Require Import gmap strings list fin_maps pretty.

Local Open Scope string_scope.
Local Open Scope Z_scope.

(** ** Package [time] *)

Module time.

Definition Duration := Z.
Definition Time := Z.

Definition Nanosecond : Duration := 1.
Definition Millisecond : Duration := 1000000.
Definition Second : Duration := 1000 * Millisecond.
Definition Minute : Duration := 60 * Second.

(* t.Add(d) *)
Definition Add (t : Time) (d : Duration) : Time := t + d.

(* t.After(u): t is strictly later than u *)
Definition After (t u : Time) : bool := bool_decide (u < t).

End time.

(** ** Package [strconv] and the [error] values of package [fmt] *)

Module strconv.

(* strconv.Itoa: decimal digits, a leading minus sign for negatives *)
Definition Itoa (i : Z) : string := pretty i.

End strconv.

Module errors.

(* [errorString] is what errors.New and a fmt.Errorf without %w build;
   [wrapError] is what fmt.Errorf builds for a format with one %w: the
   formatted message and the wrapped error. *)
Inductive error : Type :=
| errorString (s : string)
| wrapError (msg : string) (err : error).

Definition Error (e : error) : string :=
  match e with
  | errorString s => s
  | wrapError msg _ => msg
  end.

Definition Unwrap (e : error) : option error :=
  match e with
  | errorString _ => None
  | wrapError _ err => Some err
  end.

(* fmt.Errorf(prefix + "%w", err) *)
Definition Errorf_w (prefix : string) (err : error) : error :=
  wrapError (prefix +:+ Error err) err.

(* strings.Contains(s, substr) *)
Definition Contains (s substr : string) : bool :=
  match String.index 0 substr s with
  | Some _ => true
  | None => false
  end.

End errors.

(** The zero value of a Go type ([var zero T]). *)
Class ZeroValue (T : Type) := zero : T.
Global Instance string_zero : ZeroValue string := "".
Global Instance int_zero : ZeroValue Z := 0.
(* the zero value of a pointer type is nil *)
Global Instance pointer_zero {A} : ZeroValue (option A) := None.

(** ** Package [cache] *)

Module cache.

Import time.

Section Cache.

Context {T : Type} `{!ZeroValue T}.

Record Entry := {
  Value : T;
  ExpiresAt : Time;
  IsFallback : bool;
}.

(* IsExpired, with [now] the reading of time.Now() *)
Definition IsExpired (now : Time) (e : Entry) : bool :=
  After now (ExpiresAt e).

Record Cache := {
  entries : gmap string Entry;
  ttl : Duration;
}.

Definition New (ttl0 : Duration) : Cache :=
  {| entries := ∅; ttl := ttl0 |}.

Definition Get (key : string) (now : Time) (c : Cache) : T * bool * bool :=
  match entries c !! key with
  | None => (zero, false, false)
  | Some entry => (Value entry, true, IsExpired now entry)
  end.

(* Set *)
Definition Set_ (key : string) (value : T) (now : Time) (c : Cache) : Cache :=
  {| entries :=
       <[key := {| Value := value;
                   ExpiresAt := Add now (ttl c);
                   IsFallback := false |}]> (entries c);
     ttl := ttl c |}.

Definition SetWithTTL (key : string) (value : T) (ttl0 : Duration)
    (now : Time) (c : Cache) : Cache :=
  {| entries :=
       <[key := {| Value := value;
                   ExpiresAt := Add now ttl0;
                   IsFallback := false |}]> (entries c);
     ttl := ttl c |}.

Definition Delete (key : string) (c : Cache) : Cache :=
  {| entries := delete key (entries c); ttl := ttl c |}.

Definition Clear (c : Cache) : Cache :=
  {| entries := ∅; ttl := ttl c |}.

(* The body of the range loop of Cleanup: [m] is the live map. *)
Definition Cleanup_body (now : Time) (m : gmap string Entry)
    (kv : string * Entry) : gmap string Entry :=
  if After now (ExpiresAt kv.2) then delete kv.1 m else m.

(* The range loop over the pairs in the order [order] the runtime
   produces them.  The loop deletes only the key it is visiting, so the
   pairs it visits are those of the map at loop entry. *)
Definition Cleanup_loop (now : Time) (order : list (string * Entry))
    (m : gmap string Entry) : gmap string Entry :=
  foldl (Cleanup_body now) m order.

Definition Cleanup (now : Time) (c : Cache) : Cache :=
  {| entries := Cleanup_loop now (map_to_list (entries c)) (entries c);
     ttl := ttl c |}.

Definition Size (c : Cache) : Z := Z.of_nat (size (entries c)).

Definition SetTTL (ttl0 : Duration) (c : Cache) : Cache :=
  {| entries := entries c; ttl := ttl0 |}.

Definition GetTTL (c : Cache) : Duration := ttl c.

(** A call of one of the mutating or reading methods, for reasoning
    about sequences of calls on one cache. *)
Inductive Call :=
| CallGet (key : string)
| CallSet (key : string) (value : T)
| CallSetWithTTL (key : string) (value : T) (ttl0 : Duration)
| CallDelete (key : string)
| CallClear
| CallCleanup
| CallSize
| CallSetTTL (ttl0 : Duration)
| CallGetTTL.

(* the state after one call made at instant [now] *)
Definition exec (c : Cache) (call : Time * Call) : Cache :=
  let now := call.1 in
  match call.2 with
  | CallGet _ | CallSize | CallGetTTL => c
  | CallSet key value => Set_ key value now c
  | CallSetWithTTL key value ttl0 => SetWithTTL key value ttl0 now c
  | CallDelete key => Delete key c
  | CallClear => Clear c
  | CallCleanup => Cleanup now c
  | CallSetTTL ttl0 => SetTTL ttl0 c
  end.

Definition run (calls : list (Time * Call)) (c : Cache) : Cache :=
  foldl exec c calls.

(* the calls that leave the entry under [key] in place: everything but
   a sweep, a removal, and a write to [key] itself *)
Definition keeps (key : string) (call : Call) : bool :=
  match call with
  | CallSet key' _ | CallSetWithTTL key' _ _ | CallDelete key' =>
      bool_decide (key' ≠ key)
  | CallClear | CallCleanup => false
  | CallGet _ | CallSize | CallSetTTL _ | CallGetTTL => true
  end.

End Cache.

Arguments Entry T : clear implicits.
Arguments Cache T : clear implicits.
Arguments Call T : clear implicits.

End cache.

(** ** Package [model]: prompts *)

Module model.

(* A decoded JSON value held in a field of type [any]; numbers keep
   their literal. *)
#[warnings="-register-all"]
Inductive any : Type :=
| anyNil
| anyBool (b : bool)
| anyNumber (literal : string)
| anyString (s : string)
| anyArray (elems : list any)
| anyObject (fields : list (string * any)).

Definition PromptType := string.
Definition PromptTypeText : PromptType := "text".
Definition PromptTypeChat : PromptType := "chat".

Record ChatMessage := {
  Role : string;
  Content : string;
}.

Record TextPrompt := {
  text_Name : string;
  text_Version : Z;
  text_Config : any;
  text_Labels : list string;
  text_Tags : list string;
  text_Prompt : string;
  text_Type : PromptType;
  text_CommitMessage : option string;
  text_ResolutionGraph : list (string * any);
}.

Record ChatPrompt := {
  chat_Name : string;
  chat_Version : Z;
  chat_Config : any;
  chat_Labels : list string;
  chat_Tags : list string;
  chat_Prompt : list ChatMessage;
  chat_Type : PromptType;
  chat_CommitMessage : option string;
  chat_ResolutionGraph : list (string * any);
}.

(* The union of the two variants: two embedded pointers. *)
Record Prompt := {
  TextPrompt_ : option TextPrompt;
  ChatPrompt_ : option ChatPrompt;
}.

Definition IsText (p : Prompt) : bool :=
  match TextPrompt_ p with Some _ => true | None => false end.

Definition IsChat (p : Prompt) : bool :=
  match ChatPrompt_ p with Some _ => true | None => false end.

(* The accessors read the text variant first, then the chat variant. *)
Definition GetName (p : Prompt) : string :=
  match TextPrompt_ p with
  | Some t => text_Name t
  | None => match ChatPrompt_ p with Some c => chat_Name c | None => "" end
  end.

Definition GetVersion (p : Prompt) : Z :=
  match TextPrompt_ p with
  | Some t => text_Version t
  | None => match ChatPrompt_ p with Some c => chat_Version c | None => 0 end
  end.

Definition GetConfig (p : Prompt) : any :=
  match TextPrompt_ p with
  | Some t => text_Config t
  | None =>
      match ChatPrompt_ p with Some c => chat_Config c | None => anyNil end
  end.

Definition GetLabels (p : Prompt) : list string :=
  match TextPrompt_ p with
  | Some t => text_Labels t
  | None => match ChatPrompt_ p with Some c => chat_Labels c | None => [] end
  end.

Definition GetTags (p : Prompt) : list string :=
  match TextPrompt_ p with
  | Some t => text_Tags t
  | None => match ChatPrompt_ p with Some c => chat_Tags c | None => [] end
  end.

(* len(s) *)
Definition len (s : string) : Z := Z.of_nat (String.length s).

(* s[i:j], for 0 <= i <= j <= len(s) *)
Definition slice (s : string) (i j : nat) : string :=
  String.substring i (j - i) s.

(* The loop of indexOf: [steps] iterations are left and the loop variable
   is [i]. *)
Fixpoint indexOf_loop (steps i : nat) (s substr : string) : Z :=
  match steps with
  | O => -1
  | S steps' =>
      if String.eqb (slice s i (i + String.length substr)) substr
      then Z.of_nat i
      else indexOf_loop steps' (S i) s substr
  end.

(* i runs from 0 while i <= len(s)-len(substr): that is
   len(s)-len(substr)+1 iterations, none when the difference is negative *)
Definition indexOf (s substr : string) : Z :=
  indexOf_loop (Z.to_nat (len s - len substr + 1)) 0 s substr.

(* The loop of replaceAll.  It has no bound of its own: [fuel] counts the
   iterations the model is willing to run and [None] says they did not
   suffice. *)
Fixpoint replaceAll_loop (fuel : nat) (result s old new : string)
    : option string :=
  match fuel with
  | O => None
  | S fuel' =>
      let i := indexOf s old in
      if i =? -1 then Some (result +:+ s)
      else
        replaceAll_loop fuel'
          (result +:+ slice s 0 (Z.to_nat i) +:+ new)
          (slice s (Z.to_nat (i + len old)) (String.length s))
          old new
  end.

(* replaceAll; [None] stands for a loop that never ends (the fuel given
   is enough for every loop that does end) *)
Definition replaceAll (s old new : string) : option string :=
  replaceAll_loop (S (String.length s)) "" s old new.

(* The loop over [variables] shared by the two Compile methods, in the
   order [order] in which the runtime produces the pairs. *)
Fixpoint substitute (order : list (string * string)) (result : string)
    : option string :=
  match order with
  | [] => Some result
  | (key, value) :: order' =>
      let placeholder := "{{" +:+ key +:+ "}}" in
      match replaceAll result placeholder value with
      | Some result' => substitute order' result'
      | None => None
      end
  end.

(* (p *TextPrompt).Compile(variables), iterating in the order [order] *)
Definition TextPrompt_Compile (order : list (string * string))
    (p : TextPrompt) : option string :=
  substitute order (text_Prompt p).

(* The loop of (p *ChatPrompt).Compile over the messages from index [i]
   on; [orders j] is the order in which the inner loop of message [j]
   visits [variables]. *)
Fixpoint ChatPrompt_Compile_loop (orders : nat → list (string * string))
    (i : nat) (msgs : list ChatMessage) (result : list ChatMessage)
    : option (list ChatMessage) :=
  match msgs with
  | [] => Some result
  | msg :: msgs' =>
      match substitute (orders i) (Content msg) with
      | Some content =>
          ChatPrompt_Compile_loop orders (S i) msgs'
            (<[i := {| Role := Role msg; Content := content |}]> result)
      | None => None
      end
  end.

Definition ChatPrompt_Compile (orders : nat → list (string * string))
    (p : ChatPrompt) : option (list ChatMessage) :=
  ChatPrompt_Compile_loop orders 0 (chat_Prompt p)
    (replicate (length (chat_Prompt p)) {| Role := ""; Content := "" |}).

(* [substr] occurs in [s] at byte offset [i] *)
Definition occursAt (s substr : string) (i : nat) : Prop :=
  ∃ pre post, s = pre +:+ substr +:+ post ∧ String.length pre = i.

(* the pairs of [variables], in some order *)
Definition iterates (order : list (string * string))
    (variables : gmap string string) : Prop :=
  order ≡ₚ map_to_list variables.

(** *** Ingestion events and their bodies *)

(* a float64, as its 64 bits *)
Definition float64 := Z.

Definition IngestionEventType := string.
Definition IngestionEventTypeTraceCreate : IngestionEventType := "trace-create".
Definition IngestionEventTypeGenerationCreate : IngestionEventType :=
  "generation-create".
Definition IngestionEventTypeGenerationUpdate : IngestionEventType :=
  "generation-update".
Definition IngestionEventTypeScoreCreate : IngestionEventType := "score-create".
Definition IngestionEventTypeSpanCreate : IngestionEventType := "span-create".
Definition IngestionEventTypeSpanUpdate : IngestionEventType := "span-update".
Definition IngestionEventTypeEventCreate : IngestionEventType := "event-create".

Definition ObservationLevel := string.
Definition UsageUnit := string.

Record Trace := {
  trace_ID : string;
  trace_Timestamp : option time.Time;
  trace_Name : string;
  trace_UserID : string;
  trace_Input : any;
  trace_Output : any;
  trace_SessionID : string;
  trace_Release : string;
  trace_Version : string;
  trace_Metadata : any;
  trace_Tags : list string;
  trace_Public : bool;
}.

Record Usage := {
  usage_Input : Z;
  usage_Output : Z;
  usage_Total : Z;
  usage_Unit : UsageUnit;
  usage_InputCost : float64;
  usage_OutputCost : float64;
  usage_TotalCost : float64;
  usage_PromptTokens : Z;
  usage_CompletionTokens : Z;
  usage_TotalTokens : Z;
}.

Record Generation := {
  gen_TraceID : string;
  gen_Name : string;
  gen_StartTime : option time.Time;
  gen_Metadata : any;
  gen_Input : any;
  gen_Output : any;
  gen_Level : ObservationLevel;
  gen_StatusMessage : string;
  gen_ParentObservationID : string;
  gen_Version : string;
  gen_ID : string;
  gen_EndTime : option time.Time;
  gen_CompletionStartTime : option time.Time;
  gen_Model : string;
  gen_ModelParameters : any;
  gen_Usage : Usage;
  gen_PromptName : string;
  gen_PromptVersion : Z;
}.

(* [score_SessionID] is the field SessionID that langfuse.Score reads and
   its tests set; the declaration of Score among the sources does not
   list it. *)
Record Score := {
  score_ID : string;
  score_TraceID : string;
  score_SessionID : string;
  score_Name : string;
  score_Value : float64;
  score_ObservationID : string;
  score_Comment : string;
}.

Record Span := {
  span_TraceID : string;
  span_Name : string;
  span_StartTime : option time.Time;
  span_Metadata : any;
  span_Input : any;
  span_Output : any;
  span_Level : ObservationLevel;
  span_StatusMessage : string;
  span_ParentObservationID : string;
  span_Version : string;
  span_ID : string;
  span_EndTime : option time.Time;
}.

Record Event := {
  event_TraceID : string;
  event_Name : string;
  event_StartTime : option time.Time;
  event_Metadata : any;
  event_Input : any;
  event_Output : any;
  event_Level : ObservationLevel;
  event_StatusMessage : string;
  event_ParentObservationID : string;
  event_Version : string;
  event_ID : string;
}.

(* What the field Body of an event points to, as it is when the event is
   dispatched. *)
Inductive Body :=
| BodyTrace (t : Trace)
| BodyGeneration (g : Generation)
| BodyScore (s : Score)
| BodySpan (s : Span)
| BodyEvent (e : Event).

Record IngestionEvent := {
  ie_Type : IngestionEventType;
  ie_ID : string;
  ie_Timestamp : time.Time;
  ie_Metadata : any;
  ie_Body : Body;
}.

(* &Trace{Name: name} *)
Definition Trace_named (name : string) : Trace :=
  {| trace_ID := ""; trace_Timestamp := None; trace_Name := name;
     trace_UserID := ""; trace_Input := anyNil; trace_Output := anyNil;
     trace_SessionID := ""; trace_Release := ""; trace_Version := "";
     trace_Metadata := anyNil; trace_Tags := []; trace_Public := false |}.

(* the assignments to single fields the client makes *)
Definition Trace_set_ID (id : string) (t : Trace) : Trace :=
  {| trace_ID := id; trace_Timestamp := trace_Timestamp t;
     trace_Name := trace_Name t; trace_UserID := trace_UserID t;
     trace_Input := trace_Input t; trace_Output := trace_Output t;
     trace_SessionID := trace_SessionID t; trace_Release := trace_Release t;
     trace_Version := trace_Version t; trace_Metadata := trace_Metadata t;
     trace_Tags := trace_Tags t; trace_Public := trace_Public t |}.

Definition Generation_set (traceID parentID id : string) (g : Generation)
    : Generation :=
  {| gen_TraceID := traceID; gen_Name := gen_Name g;
     gen_StartTime := gen_StartTime g; gen_Metadata := gen_Metadata g;
     gen_Input := gen_Input g; gen_Output := gen_Output g;
     gen_Level := gen_Level g; gen_StatusMessage := gen_StatusMessage g;
     gen_ParentObservationID := parentID; gen_Version := gen_Version g;
     gen_ID := id; gen_EndTime := gen_EndTime g;
     gen_CompletionStartTime := gen_CompletionStartTime g;
     gen_Model := gen_Model g; gen_ModelParameters := gen_ModelParameters g;
     gen_Usage := gen_Usage g; gen_PromptName := gen_PromptName g;
     gen_PromptVersion := gen_PromptVersion g |}.

Definition Score_set_ID (id : string) (s : Score) : Score :=
  {| score_ID := id; score_TraceID := score_TraceID s;
     score_SessionID := score_SessionID s; score_Name := score_Name s;
     score_Value := score_Value s; score_ObservationID := score_ObservationID s;
     score_Comment := score_Comment s |}.

Definition Span_set (traceID parentID id : string) (s : Span) : Span :=
  {| span_TraceID := traceID; span_Name := span_Name s;
     span_StartTime := span_StartTime s; span_Metadata := span_Metadata s;
     span_Input := span_Input s; span_Output := span_Output s;
     span_Level := span_Level s; span_StatusMessage := span_StatusMessage s;
     span_ParentObservationID := parentID; span_Version := span_Version s;
     span_ID := id; span_EndTime := span_EndTime s |}.

Definition Event_set (traceID parentID id : string) (e : Event) : Event :=
  {| event_TraceID := traceID; event_Name := event_Name e;
     event_StartTime := event_StartTime e; event_Metadata := event_Metadata e;
     event_Input := event_Input e; event_Output := event_Output e;
     event_Level := event_Level e; event_StatusMessage := event_StatusMessage e;
     event_ParentObservationID := parentID; event_Version := event_Version e;
     event_ID := id |}.

End model.



(** ** Package [langfuse]: the prompt resolver *)

Module langfuse.

Import time errors model.

Definition defaultPromptCacheTTL : Duration := 5 * Minute.

(* The part of the client the prompt path reads and writes. *)
Record Langfuse := {
  promptCache : cache.Cache (option Prompt);
  promptCacheTTL : Duration;
}.

Record GetPromptOptions := {
  Version : option Z;
  Label : option string;
  FallbackPrompt : option Prompt;
  CacheTTL : option Duration;
  FetchTimeout : option Duration;
  ForceRefresh : bool;
}.

(* &GetPromptOptions{} *)
Definition noOptions : GetPromptOptions :=
  {| Version := None; Label := None; FallbackPrompt := None;
     CacheTTL := None; FetchTimeout := None; ForceRefresh := false |}.

(* The anonymous struct [rawPrompt] of parsePromptResponse. *)
Record rawPrompt := {
  raw_Type : string;
  raw_Name : string;
  raw_Version : Z;
  raw_Config : any;
  raw_Labels : list string;
  raw_Tags : list string;
  raw_CommitMessage : option string;
  raw_ResolutionGraph : list (string * any);
  raw_Prompt : string;
}.

(** The collaborators outside the repository: the HTTP round trip of
    [api.Client.DoGetRequest] (for the context it is called with), the
    escaping functions of [net/url] and the decoders of
    [encoding/json]. *)
Class Collaborators := {
  (* url.PathEscape *)
  PathEscape : string → string;
  (* url.QueryEscape, which url.Values.Encode applies to keys and values *)
  QueryEscape : string → string;
  (* l.client.DoGetRequest(ctx, path): body, status code, error *)
  DoGetRequest : string → string * Z * option error;
  (* json.Unmarshal(body, &rawPrompt) *)
  Unmarshal_rawPrompt : string → rawPrompt + error;
  (* json.Unmarshal(rawPrompt.Prompt, &promptStr) *)
  Unmarshal_string : string → string + error;
  (* json.Unmarshal(rawPrompt.Prompt, &messages) *)
  Unmarshal_messages : string → list ChatMessage + error;
}.

Definition New : Langfuse :=
  {| promptCache := cache.New defaultPromptCacheTTL;
     promptCacheTTL := defaultPromptCacheTTL |}.

Definition WithPromptCacheTTL (ttl : Duration) (l : Langfuse) : Langfuse :=
  {| promptCache := cache.SetTTL ttl (promptCache l);
     promptCacheTTL := ttl |}.

Definition buildPromptCacheKey (name : string) (opts : GetPromptOptions)
    : string :=
  let key := "prompt:" +:+ name in
  match Version opts with
  | Some version => key +:+ ":v" +:+ strconv.Itoa version
  | None =>
      match Label opts with
      | Some label => key +:+ ":l:" +:+ label
      | None => key +:+ ":l:production"
      end
  end.

Definition ClearPromptCache (l : Langfuse) : Langfuse :=
  {| promptCache := cache.Clear (promptCache l);
     promptCacheTTL := promptCacheTTL l |}.

Section Resolver.

Context {deps : Collaborators}.

Definition parsePromptResponse (body : string)
    : option Prompt * option error :=
  match Unmarshal_rawPrompt body with
  | inr err => (None, Some (Errorf_w "failed to unmarshal prompt: " err))
  | inl raw =>
      if String.eqb (raw_Type raw) "text" then
        match Unmarshal_string (raw_Prompt raw) with
        | inr err =>
            (None, Some (Errorf_w "failed to unmarshal text prompt: " err))
        | inl promptStr =>
            (Some {| TextPrompt_ := Some
                       {| text_Name := raw_Name raw;
                          text_Version := raw_Version raw;
                          text_Config := raw_Config raw;
                          text_Labels := raw_Labels raw;
                          text_Tags := raw_Tags raw;
                          text_Prompt := promptStr;
                          text_Type := PromptTypeText;
                          text_CommitMessage := raw_CommitMessage raw;
                          text_ResolutionGraph := raw_ResolutionGraph raw |};
                     ChatPrompt_ := None |}, None)
        end
      else if String.eqb (raw_Type raw) "chat" then
        match Unmarshal_messages (raw_Prompt raw) with
        | inr err =>
            (None, Some (Errorf_w "failed to unmarshal chat prompt: " err))
        | inl messages =>
            (Some {| TextPrompt_ := None;
                     ChatPrompt_ := Some
                       {| chat_Name := raw_Name raw;
                          chat_Version := raw_Version raw;
                          chat_Config := raw_Config raw;
                          chat_Labels := raw_Labels raw;
                          chat_Tags := raw_Tags raw;
                          chat_Prompt := messages;
                          chat_Type := PromptTypeChat;
                          chat_CommitMessage := raw_CommitMessage raw;
                          chat_ResolutionGraph := raw_ResolutionGraph raw |} |},
             None)
        end
      else
        (None, Some (errorString
                       ("unknown prompt type: " +:+ raw_Type raw)))
  end.

(* The path and query string fetchPrompt builds. *)
Definition promptPath (name : string) (opts : GetPromptOptions) : string :=
  let path := "/api/public/v2/prompts/" +:+ PathEscape name in
  match Version opts with
  | Some version =>
      path +:+ "?" +:+ "version=" +:+ QueryEscape (strconv.Itoa version)
  | None =>
      match Label opts with
      | Some label => path +:+ "?" +:+ "label=" +:+ QueryEscape label
      | None => path
      end
  end.

(* [now] is the clock reading of the cache write. *)
Definition fetchPrompt (now : Time) (name : string)
    (opts : GetPromptOptions) (l : Langfuse)
    : option Prompt * option error * Langfuse :=
  let path := promptPath name opts in
  let '(body, statusCode, err) := DoGetRequest path in
  match err with
  | Some err => (None, Some (Errorf_w "failed to fetch prompt: " err), l)
  | None =>
      if bool_decide (400 ≤ statusCode) then
        (None,
         Some (errorString ("failed to fetch prompt: HTTP "
                            +:+ strconv.Itoa statusCode +:+ ": " +:+ body)),
         l)
      else
        match parsePromptResponse body with
        | (_, Some err) =>
            (None,
             Some (Errorf_w "failed to parse prompt response: " err), l)
        | (prompt, None) =>
            let cacheTTL :=
              match CacheTTL opts with
              | Some d => d
              | None => promptCacheTTL l
              end in
            let cacheKey := buildPromptCacheKey name opts in
            (prompt, None,
             {| promptCache :=
                  cache.SetWithTTL cacheKey prompt cacheTTL now
                    (promptCache l);
                promptCacheTTL := promptCacheTTL l |})
        end
  end.

(* [tGet] is the clock reading of the cache lookup, [tSet] the one of
   the cache write of a fetch that succeeds. *)
Definition GetPrompt (tGet tSet : Time) (name : string)
    (opts : option GetPromptOptions) (l : Langfuse)
    : option Prompt * option error * Langfuse :=
  let opts := match opts with Some o => o | None => noOptions end in
  let cacheKey := buildPromptCacheKey name opts in
  let fromAPI :=
    let '(prompt, err, l') := fetchPrompt tSet name opts l in
    match err with
    | Some err =>
        match FallbackPrompt opts with
        | Some fallback => (Some fallback, None, l')
        | None => (None, Some err, l')
        end
    | None => (prompt, None, l')
    end in
  if negb (ForceRefresh opts) then
    match cache.Get cacheKey tGet (promptCache l) with
    | (prompt, true, expired) =>
        if negb expired then (prompt, None, l)
        else
          let '(newPrompt, err, l') := fetchPrompt tSet name opts l in
          match err with
          | Some _ => (prompt, None, l')
          | None => (newPrompt, None, l')
          end
    | (_, false, _) => fromAPI
    end
  else fromAPI.

(** The outcomes of the one remote fetch of a call, read off the
    collaborators: the three ways it fails, with the error fetchPrompt
    builds for each, and the way it succeeds. *)
Inductive FetchFailure (name : string) (opts : GetPromptOptions)
    : error → Prop :=
| TransportFailure body statusCode err :
    DoGetRequest (promptPath name opts) = (body, statusCode, Some err) →
    FetchFailure name opts (Errorf_w "failed to fetch prompt: " err)
| StatusFailure body statusCode :
    DoGetRequest (promptPath name opts) = (body, statusCode, None) →
    400 ≤ statusCode →
    FetchFailure name opts
      (errorString ("failed to fetch prompt: HTTP "
                    +:+ strconv.Itoa statusCode +:+ ": " +:+ body))
| ParseFailure body statusCode prompt err :
    DoGetRequest (promptPath name opts) = (body, statusCode, None) →
    statusCode < 400 →
    parsePromptResponse body = (prompt, Some err) →
    FetchFailure name opts
      (Errorf_w "failed to parse prompt response: " err).

Definition FetchSuccess (name : string) (opts : GetPromptOptions)
    (prompt : option Prompt) : Prop :=
  ∃ body statusCode,
    DoGetRequest (promptPath name opts) = (body, statusCode, None) ∧
    statusCode < 400 ∧
    parsePromptResponse body = (prompt, None).

(* the TTL fetchPrompt writes the entry with *)
Definition effectiveTTL (opts : GetPromptOptions) (l : Langfuse) : Duration :=
  match CacheTTL opts with
  | Some d => d
  | None => promptCacheTTL l
  end.

End Resolver.

(* [opts] with another fallback prompt and everything else as it is *)
Definition setFallbackPrompt (fallback : option Prompt)
    (opts : GetPromptOptions) : GetPromptOptions :=
  {| Version := Version opts; Label := Label opts;
     FallbackPrompt := fallback;
     CacheTTL := CacheTTL opts; FetchTimeout := FetchTimeout opts;
     ForceRefresh := ForceRefresh opts |}.

(* [opts] with another label and everything else as it is *)
Definition setLabel (label : option string)
    (opts : GetPromptOptions) : GetPromptOptions :=
  {| Version := Version opts; Label := label;
     FallbackPrompt := FallbackPrompt opts;
     CacheTTL := CacheTTL opts; FetchTimeout := FetchTimeout opts;
     ForceRefresh := ForceRefresh opts |}.


(** *** The ingestion path

    The calls that build and dispatch ingestion events.  What is outside
    the repository is a parameter: the identifiers uuid.New() hands out
    and the readings of the clock, both in the order they are drawn.  The
    observer is represented by the events handed to its Dispatch, oldest
    first. *)

Class Runtime := {
  (* the n-th result of uuid.New().String() *)
  uuidNew : nat → string;
  (* the n-th result of time.Now().UTC() *)
  timeNow : nat → Time;
}.

Record Process := {
  uuidsDrawn : nat;
  clockReads : nat;
  observer : list IngestionEvent;
}.

Definition started : Process :=
  {| uuidsDrawn := 0; clockReads := 0; observer := [] |}.

(* A computation that draws identifiers, reads the clock and dispatches. *)
Definition M (A : Type) : Type := Process → A * Process.

Definition ret {A} (a : A) : M A := λ w, (a, w).

Definition bind {A B} (m : M A) (k : A → M B) : M B :=
  λ w, let '(a, w') := m w in k a w'.

#[global] Instance M_ret : MRet M := @ret.
#[global] Instance M_bind : MBind M := λ A B k m, bind m k.

Section Ingestion.

Context {rt : Runtime}.

(* uuid.New().String() *)
Definition uuidString : M string :=
  λ w, (uuidNew (uuidsDrawn w),
        {| uuidsDrawn := S (uuidsDrawn w); clockReads := clockReads w;
           observer := observer w |}).

(* time.Now().UTC() *)
Definition nowUTC : M Time :=
  λ w, (timeNow (clockReads w),
        {| uuidsDrawn := uuidsDrawn w; clockReads := S (clockReads w);
           observer := observer w |}).

(* l.observer.Dispatch(event) *)
Definition Dispatch (event : IngestionEvent) : M unit :=
  λ w, (tt,
        {| uuidsDrawn := uuidsDrawn w; clockReads := clockReads w;
           observer := observer w ++ [event] |}).

Definition buildID (id : option string) : M string :=
  match id with
  | None => uuidString
  | Some id => if String.eqb id "" then uuidString else ret id
  end.

(* Dispatch(IngestionEvent{ID: <id>, Type: ty, Timestamp: now, Body: body})
   with the fields evaluated in that order *)
Definition dispatchNew (newID : M string) (ty : IngestionEventType)
    (body : Body) : M unit :=
  id ← newID ;
  timestamp ← nowUTC ;
  Dispatch {| ie_Type := ty; ie_ID := id; ie_Timestamp := timestamp;
              ie_Metadata := anyNil; ie_Body := body |}.

Definition Trace (t : model.Trace) : M (option model.Trace * option error) :=
  id ← buildID (Some (trace_ID t)) ;
  let t := Trace_set_ID id t in
  _ ← dispatchNew (buildID None) IngestionEventTypeTraceCreate (BodyTrace t) ;
  ret (Some t, None).

Definition createTrace (traceName : string) : M (string * option error) :=
  r ← Trace (Trace_named traceName) ;
  match r with
  | (_, Some errTrace) => ret ("", Some errTrace)
  | (Some trace, None) => ret (trace_ID trace, None)
  (* not reached: Trace returns a trace whenever it returns no error *)
  | (None, None) => ret ("", None)
  end.

Definition Generation (g : model.Generation) (parentID : option string)
    : M (option model.Generation * option error) :=
  r ← (if String.eqb (gen_TraceID g) "" then createTrace (gen_Name g)
       else ret (gen_TraceID g, None)) ;
  match r with
  | (_, Some err) => ret (None, Some err)
  | (traceID, None) =>
      id ← buildID (Some (gen_ID g)) ;
      let parent :=
        match parentID with
        | Some p => p
        | None => gen_ParentObservationID g
        end in
      let g := Generation_set traceID parent id g in
      _ ← dispatchNew (buildID None) IngestionEventTypeGenerationCreate
            (BodyGeneration g) ;
      ret (Some g, None)
  end.

Definition GenerationEnd (g : model.Generation)
    : M (option model.Generation * option error) :=
  if String.eqb (gen_ID g) "" then
    ret (None, Some (errorString "generation ID is required"))
  else if String.eqb (gen_TraceID g) "" then
    ret (None, Some (errorString "trace ID is required"))
  else
    _ ← dispatchNew (buildID None) IngestionEventTypeGenerationUpdate
          (BodyGeneration g) ;
    ret (Some g, None).

Definition Score (s : model.Score) : M (option model.Score * option error) :=
  if String.eqb (score_TraceID s) "" && String.eqb (score_SessionID s) "" then
    ret (None, Some (errorString "either trace ID or session ID is required"))
  else
    id ← buildID (Some (score_ID s)) ;
    let s := Score_set_ID id s in
    _ ← dispatchNew (buildID None) IngestionEventTypeScoreCreate (BodyScore s) ;
    ret (Some s, None).

Definition Span (s : model.Span) (parentID : option string)
    : M (option model.Span * option error) :=
  r ← (if String.eqb (span_TraceID s) "" then createTrace (span_Name s)
       else ret (span_TraceID s, None)) ;
  match r with
  | (_, Some err) => ret (None, Some err)
  | (traceID, None) =>
      id ← buildID (Some (span_ID s)) ;
      let parent :=
        match parentID with
        | Some p => p
        | None => span_ParentObservationID s
        end in
      let s := Span_set traceID parent id s in
      _ ← dispatchNew (buildID None) IngestionEventTypeSpanCreate (BodySpan s) ;
      ret (Some s, None)
  end.

Definition SpanEnd (s : model.Span) : M (option model.Span * option error) :=
  if String.eqb (span_ID s) "" then
    ret (None, Some (errorString "generation ID is required"))
  else if String.eqb (span_TraceID s) "" then
    ret (None, Some (errorString "trace ID is required"))
  else
    _ ← dispatchNew (buildID None) IngestionEventTypeSpanUpdate (BodySpan s) ;
    ret (Some s, None).

Definition Event (e : model.Event) (parentID : option string)
    : M (option model.Event * option error) :=
  r ← (if String.eqb (event_TraceID e) "" then createTrace (event_Name e)
       else ret (event_TraceID e, None)) ;
  match r with
  | (_, Some err) => ret (None, Some err)
  | (traceID, None) =>
      id ← buildID (Some (event_ID e)) ;
      let parent :=
        match parentID with
        | Some p => p
        | None => event_ParentObservationID e
        end in
      let e := Event_set traceID parent id e in
      _ ← dispatchNew uuidString IngestionEventTypeEventCreate (BodyEvent e) ;
      ret (Some e, None)
  end.

(** The process after the steps above, for stating what a call did. *)

(* [n] more identifiers drawn *)
Definition drew (n : nat) (w : Process) : Process :=
  {| uuidsDrawn := n + uuidsDrawn w; clockReads := clockReads w;
     observer := observer w |}.

(* the event a dispatch of [ty] and [body] builds in [w]: its identifier
   is the next one drawn and its timestamp the next reading of the clock *)
Definition eventIn (w : Process) (ty : IngestionEventType) (body : Body)
    : IngestionEvent :=
  {| ie_Type := ty; ie_ID := uuidNew (uuidsDrawn w);
     ie_Timestamp := timeNow (clockReads w);
     ie_Metadata := anyNil; ie_Body := body |}.

(* one event built and dispatched *)
Definition dispatched (ty : IngestionEventType) (body : Body) (w : Process)
    : Process :=
  {| uuidsDrawn := S (uuidsDrawn w); clockReads := S (clockReads w);
     observer := observer w ++ [eventIn w ty body] |}.

(* the identifier buildID gives for [id] in [w], and the process after *)
Definition idIn (w : Process) (id : string) : string :=
  if String.eqb id "" then uuidNew (uuidsDrawn w) else id.

Definition afterID (id : string) (w : Process) : Process :=
  if String.eqb id "" then drew 1 w else w.

(* every event dispatched so far carries the reading of the clock taken
   for it: the k-th event the k-th reading *)
Definition timestamped (w : Process) : Prop :=
  clockReads w = length (observer w) ∧
  ∀ k event, observer w !! k = Some event → ie_Timestamp event = timeNow k.

End Ingestion.

End langfuse.


(** ** Collaborators for the examples

    A toy decoder and three servers: one that answers, one that is
    unreachable and one that answers 404. *)

Module fixtures.

Import time errors model langfuse.

Definition movieCritic : Prompt :=
  {| TextPrompt_ := Some
       {| text_Name := "movie-critic";
          text_Version := 2;
          text_Config := anyNil;
          text_Labels := ["production"];
          text_Tags := [];
          text_Prompt := "Please review {{movie}} in a {{style}} style.";
          text_Type := PromptTypeText;
          text_CommitMessage := None;
          text_ResolutionGraph := [] |};
     ChatPrompt_ := None |}.

Definition oldCritic : Prompt :=
  {| TextPrompt_ := Some
       {| text_Name := "movie-critic";
          text_Version := 1;
          text_Config := anyNil;
          text_Labels := [];
          text_Tags := [];
          text_Prompt := "Review {{movie}}.";
          text_Type := PromptTypeText;
          text_CommitMessage := None;
          text_ResolutionGraph := [] |};
     ChatPrompt_ := None |}.

Definition fallbackCritic : Prompt :=
  {| TextPrompt_ := Some
       {| text_Name := "movie-critic";
          text_Version := 0;
          text_Config := anyNil;
          text_Labels := [];
          text_Tags := [];
          text_Prompt := "Say something about {{movie}}.";
          text_Type := PromptTypeText;
          text_CommitMessage := None;
          text_ResolutionGraph := [] |};
     ChatPrompt_ := None |}.

Definition decodeRaw (body : string) : rawPrompt + error :=
  if String.eqb body "<movie-critic v2>" then
    inl {| raw_Type := "text"; raw_Name := "movie-critic"; raw_Version := 2;
           raw_Config := anyNil; raw_Labels := ["production"];
           raw_Tags := []; raw_CommitMessage := None;
           raw_ResolutionGraph := [];
           raw_Prompt := "Please review {{movie}} in a {{style}} style." |}
  else if String.eqb body "<image prompt>" then
    inl {| raw_Type := "image"; raw_Name := "poster"; raw_Version := 1;
           raw_Config := anyNil; raw_Labels := []; raw_Tags := [];
           raw_CommitMessage := None; raw_ResolutionGraph := [];
           raw_Prompt := "" |}
  else inr (errorString "unexpected end of JSON input").

Definition withServer (server : string → string * Z * option error)
    : Collaborators :=
  {| PathEscape := id;
     QueryEscape := id;
     DoGetRequest := server;
     Unmarshal_rawPrompt := decodeRaw;
     Unmarshal_string := inl;
     Unmarshal_messages := λ _, inr (errorString "not an array") |}.

Definition serverUp : Collaborators :=
  withServer (λ _, ("<movie-critic v2>", 200, None)).

Definition serverDown : Collaborators :=
  withServer (λ _, ("", 0,
    Some (errorString "failed to execute request: connection refused"))).

Definition serverNotFound : Collaborators :=
  withServer (λ _, ("not found", 404, None)).

Definition serverImage : Collaborators :=
  withServer (λ _, ("<image prompt>", 200, None)).

(* a client whose cache holds [oldCritic] under the production key of
   "movie-critic", written at instant 0 with a TTL of one minute *)
Definition seeded : Langfuse :=
  {| promptCache :=
       cache.SetWithTTL "prompt:movie-critic:l:production" (Some oldCritic)
         Minute 0 (cache.New defaultPromptCacheTTL);
     promptCacheTTL := defaultPromptCacheTTL |}.

Definition withFallback : GetPromptOptions :=
  {| Version := None; Label := None; FallbackPrompt := Some fallbackCritic;
     CacheTTL := None; FetchTimeout := None; ForceRefresh := false |}.

Definition forced : GetPromptOptions :=
  {| Version := None; Label := None; FallbackPrompt := None;
     CacheTTL := None; FetchTimeout := None; ForceRefresh := true |}.

(* a template without placeholders *)
Definition greeting : TextPrompt :=
  {| text_Name := "greeting"; text_Version := 1; text_Config := anyNil;
     text_Labels := []; text_Tags := []; text_Prompt := "Hello, World!";
     text_Type := PromptTypeText; text_CommitMessage := None;
     text_ResolutionGraph := [] |}.

(* identifiers "uuid-0", "uuid-1", ... and a clock that ticks once a
   millisecond *)
Definition counting : Runtime :=
  {| uuidNew := λ n, "uuid-" +:+ pretty n;
     timeNow := λ n, Z.of_nat n * Millisecond |}.

Definition llmCall : model.Generation :=
  {| gen_TraceID := ""; gen_Name := "chat-completion";
     gen_StartTime := None; gen_Metadata := anyNil; gen_Input := anyNil;
     gen_Output := anyNil; gen_Level := "DEFAULT"; gen_StatusMessage := "";
     gen_ParentObservationID := ""; gen_Version := ""; gen_ID := "";
     gen_EndTime := None; gen_CompletionStartTime := None;
     gen_Model := "gpt"; gen_ModelParameters := anyNil;
     gen_Usage := {| usage_Input := 0; usage_Output := 0; usage_Total := 0;
                     usage_Unit := "TOKENS"; usage_InputCost := 0;
                     usage_OutputCost := 0; usage_TotalCost := 0;
                     usage_PromptTokens := 0; usage_CompletionTokens := 0;
                     usage_TotalTokens := 0 |};
     gen_PromptName := ""; gen_PromptVersion := 0 |}.

Definition retrieval : model.Span :=
  {| span_TraceID := "trace-1"; span_Name := "retrieval";
     span_StartTime := None; span_Metadata := anyNil; span_Input := anyNil;
     span_Output := anyNil; span_Level := "DEFAULT";
     span_StatusMessage := ""; span_ParentObservationID := "";
     span_Version := ""; span_ID := ""; span_EndTime := None |}.

Definition rating : model.Score :=
  {| score_ID := "score-1"; score_TraceID := "trace-1";
     score_SessionID := ""; score_Name := "quality"; score_Value := 0;
     score_ObservationID := ""; score_Comment := "" |}.

Definition click : model.Event :=
  {| event_TraceID := ""; event_Name := "click"; event_StartTime := None;
     event_Metadata := anyNil; event_Input := anyNil;
     event_Output := anyNil; event_Level := "DEFAULT";
     event_StatusMessage := ""; event_ParentObservationID := "";
     event_Version := ""; event_ID := "" |}.

End fixtures.

(** * Properties of the TTL cache *)

Section CacheFacts.

Import time cache.

Context {T : Type} `{!ZeroValue T}.
Implicit Types (c : Cache T) (m : gmap string (Entry T)) (e : Entry T).
Implicit Types (k key : string) (v : T) (now t : Time).

Lemma After_true t u : After t u = true ↔ u < t.
Proof. unfold After. apply bool_decide_eq_true. Qed.

Lemma After_false t u : After t u = false ↔ t ≤ u.
Proof. unfold After. rewrite bool_decide_eq_false. lia. Qed.

Lemma Get_hit c k now e :
  entries c !! k = Some e → Get k now c = (Value e, true, IsExpired now e).
Proof. intros He. unfold Get. by rewrite He. Qed.

Lemma Get_miss c k now :
  entries c !! k = None → Get k now c = (zero, false, false).
Proof. intros He. unfold Get. by rewrite He. Qed.

Lemma Get_found c k now :
  (Get k now c).1.2 = true ↔ is_Some (entries c !! k).
Proof.
  unfold Get. destruct (entries c !! k) as [e|]; simpl.
  - split; eauto.
  - split; [done | by intros [? ?]].
Qed.

(** One step of the loop of Cleanup never changes another key. *)
Lemma Cleanup_body_other now m kv k :
  kv.1 ≠ k → Cleanup_body now m kv !! k = m !! k.
Proof.
  intros Hne. unfold Cleanup_body.
  destruct (After now (ExpiresAt kv.2)); [|done].
  by rewrite lookup_delete_ne.
Qed.

(** The loop only deletes: an absent key stays absent. *)
Lemma Cleanup_loop_absent now order m k :
  m !! k = None → Cleanup_loop now order m !! k = None.
Proof.
  unfold Cleanup_loop. revert m.
  induction order as [|kv order IH]; intros m Hm; simpl; [done|].
  apply IH. unfold Cleanup_body.
  destruct (After now (ExpiresAt kv.2)); [|done].
  destruct (decide (kv.1 = k)) as [->|Hne].
  - apply lookup_delete_eq.
  - by rewrite lookup_delete_ne.
Qed.

(** A key the loop visits with an elapsed expiry is gone afterwards. *)
Lemma Cleanup_loop_expired now order m k e :
  (k, e) ∈ order → After now (ExpiresAt e) = true →
  Cleanup_loop now order m !! k = None.
Proof.
  unfold Cleanup_loop. revert m.
  induction order as [|kv order IH]; intros m Hin Hexp; simpl.
  - by apply elem_of_nil in Hin.
  - apply elem_of_cons in Hin as [<-|Hin].
    + apply Cleanup_loop_absent. unfold Cleanup_body. simpl.
      rewrite Hexp. apply lookup_delete_eq.
    + by apply IH.
Qed.

(** A key the loop never visits with an elapsed expiry is untouched. *)
Lemma Cleanup_loop_kept now order m k :
  (∀ e, (k, e) ∈ order → After now (ExpiresAt e) = false) →
  Cleanup_loop now order m !! k = m !! k.
Proof.
  unfold Cleanup_loop. revert m.
  induction order as [|[k' e'] order IH]; intros m Hall; simpl; [done|].
  rewrite IH by (intros e He; apply Hall; by right).
  destruct (decide (k' = k)) as [->|Hne].
  - unfold Cleanup_body. simpl. rewrite (Hall e') by left. done.
  - by apply Cleanup_body_other.
Qed.

(** Whatever order the runtime iterates in, the loop leaves exactly the
    entries whose expiry instant has not passed. *)
Lemma Cleanup_loop_lookup now order m k e :
  (∀ k' e', (k', e') ∈ order ↔ m !! k' = Some e') →
  Cleanup_loop now order m !! k = Some e ↔
  m !! k = Some e ∧ After now (ExpiresAt e) = false.
Proof.
  intros Hord.
  destruct (m !! k) as [e0|] eqn:Hk.
  - destruct (After now (ExpiresAt e0)) eqn:Hexp.
    + rewrite (Cleanup_loop_expired now order m k e0) by (by rewrite ?Hord).
      split; [done|]. intros [[= <-] ?]. congruence.
    + rewrite Cleanup_loop_kept, Hk.
      * split; [intros [= <-]; done | by intros [? _]].
      * intros e1 He1. apply Hord in He1. congruence.
  - rewrite Cleanup_loop_absent by done. split; [done | by intros [? _]].
Qed.

Lemma Cleanup_loop_filter now order m :
  order ≡ₚ map_to_list m →
  Cleanup_loop now order m =
  filter (λ kv, After now (ExpiresAt kv.2) = false) m.
Proof.
  intros Hperm. apply map_eq. intros k. apply option_eq. intros e.
  rewrite Cleanup_loop_lookup, map_lookup_filter_Some; [done|].
  intros k' e'. rewrite Hperm. apply elem_of_map_to_list.
Qed.

Lemma size_filter_map_to_list (P : string * Entry T → Prop)
    `{!∀ kv, Decision (P kv)} m :
  size (filter P m) = length (filter P (map_to_list m)).
Proof.
  rewrite map_filter_alt, map_size_list_to_map; [done|].
  eapply sublist_NoDup; [apply (NoDup_fst_map_to_list m)|].
  apply fmap_sublist, sublist_filter.
Qed.

(** Calls that keep [k] leave its entry as it is. *)
Lemma exec_keeps c k call :
  keeps k call.2 = true → entries (exec c call) !! k = entries c !! k.
Proof.
  destruct call as [now [key|key v|key v d|key| | | |d| ]]; simpl;
    intros Hk; try done;
    apply bool_decide_eq_true in Hk.
  - by rewrite lookup_insert_ne.
  - by rewrite lookup_insert_ne.
  - by rewrite lookup_delete_ne.
Qed.

Lemma run_keeps calls c k :
  Forall (λ call, keeps k call.2 = true) calls →
  entries (run calls c) !! k = entries c !! k.
Proof.
  unfold run. revert c.
  induction calls as [|call calls IH]; intros c Hall; simpl; [done|].
  apply Forall_cons in Hall as [Hcall Hall].
  rewrite IH by done. by apply exec_keeps.
Qed.

(** C3 (as amended).  On a cache whose default TTL has not run out between
    the write and the read (in particular at the same instant, when the
    default TTL is not negative), [Set(k, v)] followed by [Get(k)] returns
    [(v, true, false)]. *)
Theorem Set_then_Get_fresh c k v t t' :
  t' ≤ Add t (GetTTL c) →
  Get k t' (Set_ k v t c) = (v, true, false).
Proof.
  intros Hfresh. unfold Get, Set_, IsExpired. simpl.
  rewrite lookup_insert_eq. simpl.
  f_equal. by apply After_false.
Qed.

(** C6.  After [SetWithTTL(k, v, ttl)] at instant [t], a [Get(k)] at an
    instant more than [ttl] later returns [(v, true, true)], whatever calls
    were made in between, as long as none of them is a sweep, a removal or
    a write to [k]: the entry is kept and reported stale. *)
Theorem SetWithTTL_then_Get_stale c k v ttl0 t calls t' :
  Forall (λ call, keeps k call.2 = true) calls →
  Add t ttl0 < t' →
  Get k t' (run calls (SetWithTTL k v ttl0 t c)) = (v, true, true).
Proof.
  intros Hcalls Hlate.
  erewrite Get_hit.
  2:{ rewrite run_keeps by done. simpl. apply lookup_insert_eq. }
  simpl. unfold IsExpired. simpl.
  f_equal. by apply After_true.
Qed.

(** C7.  After [Cleanup()] at instant [now] the cache holds exactly the
    entries whose expiry instant had not passed at [now], [Size()] is their
    number, every entry that is not expired is still there with its value,
    and the default TTL is unchanged; the order in which the loop visits
    the entries does not matter. *)
Theorem Cleanup_precision c now :
  (∀ order, order ≡ₚ map_to_list (entries c) →
            Cleanup_loop now order (entries c) = entries (Cleanup now c)) ∧
  (∀ k e, entries (Cleanup now c) !! k = Some e ↔
          entries c !! k = Some e ∧ IsExpired now e = false) ∧
  Size (Cleanup now c) =
    Z.of_nat (length (filter (λ kv, IsExpired now kv.2 = false)
                        (map_to_list (entries c)))) ∧
  (∀ k, (Get k now c).1.2 = true → (Get k now c).2 = false →
        Get k now (Cleanup now c) = Get k now c) ∧
  GetTTL (Cleanup now c) = GetTTL c.
Proof.
  assert (Hf : entries (Cleanup now c) =
               filter (λ kv, IsExpired now kv.2 = false) (entries c)).
  { simpl. by apply Cleanup_loop_filter. }
  split_and!.
  - intros order Hperm. rewrite Hf. by apply Cleanup_loop_filter.
  - intros k e. rewrite Hf. apply map_lookup_filter_Some.
  - unfold Size. rewrite Hf. f_equal. apply size_filter_map_to_list.
  - intros k. unfold Get at 1 2.
    destruct (entries c !! k) as [e|] eqn:Hk; simpl; [|done].
    intros _ Hfresh. unfold Get. rewrite Hk.
    assert (entries (Cleanup now c) !! k = Some e) as ->; [|done].
    rewrite Hf. by apply map_lookup_filter_Some.
  - done.
Qed.

End CacheFacts.

(** C3 as stated fails: with a negative default TTL the entry is already
    expired when it is read back at the instant it was written. *)
Lemma Set_then_Get_negative_ttl :
  ¬ (∀ (c : cache.Cache string) (k v : string) (t : time.Time),
       cache.Get k t (cache.Set_ k v t c) = (v, true, false)).
Proof.
  intros H.
  specialize (H (cache.New (- time.Nanosecond)) "key1" "value1" 0).
  vm_compute in H. discriminate H.
Qed.

Lemma Set_then_Get_fresh_witness :
  0 ≤ time.Add 0 (cache.GetTTL (cache.New (T:=string) time.Minute)) ∧
  cache.Get "key1" 0 (cache.Set_ "key1" "value1" 0 (cache.New time.Minute))
  = ("value1", true, false).
Proof.
  split; [by vm_compute|].
  apply (Set_then_Get_fresh (cache.New time.Minute) "key1" "value1" 0 0).
  by vm_compute.
Defined.

Lemma SetWithTTL_then_Get_stale_witness :
  Forall (λ call, cache.keeps "key1" call.2 = true)
    [(10, cache.CallSet "key2" "value2");
     (20, cache.CallSetTTL time.Minute);
     (30, cache.CallDelete "key3")] ∧
  time.Add 0 (50 * time.Millisecond) < 60 * time.Millisecond ∧
  cache.Get "key1" (60 * time.Millisecond)
    (cache.run [(10, cache.CallSet "key2" "value2");
                (20, cache.CallSetTTL time.Minute);
                (30, cache.CallDelete "key3")]
       (cache.SetWithTTL "key1" "value1" (50 * time.Millisecond) 0
          (cache.New (60 * time.Minute))))
  = ("value1", true, true).
Proof.
  assert (Hcalls : Forall (λ call, cache.keeps "key1" call.2 = true)
                     [(10, cache.CallSet "key2" "value2");
                      (20, cache.CallSetTTL time.Minute);
                      (30, cache.CallDelete "key3")]).
  { repeat constructor. }
  assert (Hlate : time.Add 0 (50 * time.Millisecond)
                  < 60 * time.Millisecond) by (by vm_compute).
  split_and!; [exact Hcalls | exact Hlate |].
  exact (SetWithTTL_then_Get_stale (cache.New (60 * time.Minute))
           "key1" "value1" (50 * time.Millisecond) 0 _
           (60 * time.Millisecond) Hcalls Hlate).
Defined.


(** * Properties of the prompt resolver *)

Section ResolverFacts.

Import time errors model langfuse.

Context {deps : Collaborators}.
Implicit Types (l : Langfuse) (opts : GetPromptOptions) (name : string).
Implicit Types (e err : error) (prompt stale : option Prompt).

(** ** The fetch step *)

Lemma fetchPrompt_failure now name opts l err :
  FetchFailure name opts err →
  fetchPrompt now name opts l = (None, Some err, l).
Proof.
  intros [body st e Hreq | body st Hreq Hst | body st p e Hreq Hst Hparse];
    unfold fetchPrompt; rewrite Hreq.
  - done.
  - by rewrite bool_decide_eq_true_2.
  - rewrite bool_decide_eq_false_2 by lia. by rewrite Hparse.
Qed.

Lemma fetchPrompt_success now name opts l prompt :
  FetchSuccess name opts prompt →
  fetchPrompt now name opts l =
  (prompt, None,
   {| promptCache :=
        cache.SetWithTTL (buildPromptCacheKey name opts) prompt
          (effectiveTTL opts l) now (promptCache l);
      promptCacheTTL := promptCacheTTL l |}).
Proof.
  intros (body & st & Hreq & Hst & Hparse).
  unfold fetchPrompt. rewrite Hreq.
  rewrite bool_decide_eq_false_2 by lia. by rewrite Hparse.
Qed.

(** Every fetch either fails in one of the three ways or succeeds. *)
Lemma fetch_outcome name opts :
  (∃ err, FetchFailure name opts err) ∨ (∃ prompt, FetchSuccess name opts prompt).
Proof.
  destruct (DoGetRequest (promptPath name opts)) as [[body st] [e|]] eqn:Hreq.
  - left. eexists. by eapply TransportFailure.
  - destruct (decide (400 ≤ st)) as [Hst|Hst].
    + left. eexists. by eapply StatusFailure.
    + destruct (parsePromptResponse body) as [p [e|]] eqn:Hparse.
      * left. eexists. eapply ParseFailure; [done | lia | done].
      * right. exists p, body, st. split_and!; [done | lia | done].
Qed.

Lemma fetchPrompt_error_inv now name opts l err :
  (fetchPrompt now name opts l).1.2 = Some err → FetchFailure name opts err.
Proof.
  destruct (fetch_outcome name opts) as [[e He]|[p Hp]].
  - rewrite (fetchPrompt_failure _ _ _ _ _ He). simpl. by intros [= <-].
  - by rewrite (fetchPrompt_success _ _ _ _ _ Hp).
Qed.

Lemma fetchPrompt_fails_iff now name opts l err :
  (fetchPrompt now name opts l).1.2 = Some err ↔ FetchFailure name opts err.
Proof.
  split; [apply fetchPrompt_error_inv|].
  intros Hfail. by rewrite (fetchPrompt_failure _ _ _ _ _ Hfail).
Qed.

(** A body whose discriminant is neither "text" nor "chat" is a parse
    error. *)
Lemma parsePromptResponse_unknown_type body raw :
  Unmarshal_rawPrompt body = inl raw →
  raw_Type raw ≠ "text" → raw_Type raw ≠ "chat" →
  parsePromptResponse body =
  (None, Some (errorString ("unknown prompt type: " +:+ raw_Type raw))).
Proof.
  intros Hraw Htext Hchat. unfold parsePromptResponse. rewrite Hraw.
  apply String.eqb_neq in Htext, Hchat. by rewrite Htext, Hchat.
Qed.

(** A parse that succeeds yields a prompt with exactly one variant. *)
Lemma parsePromptResponse_ok body prompt :
  parsePromptResponse body = (prompt, None) →
  ∃ p, prompt = Some p ∧ IsText p ≠ IsChat p.
Proof.
  unfold parsePromptResponse.
  destruct (Unmarshal_rawPrompt body) as [raw|e]; [|done].
  destruct (String.eqb (raw_Type raw) "text").
  - destruct (Unmarshal_string _); [|done].
    intros [= <-]. eexists. split; [done|]. done.
  - destruct (String.eqb (raw_Type raw) "chat"); [|done].
    destruct (Unmarshal_messages _); [|done].
    intros [= <-]. eexists. split; [done|]. done.
Qed.

(** ** The branches of GetPrompt *)

Lemma GetPrompt_fresh tGet tSet name opts l prompt :
  ForceRefresh opts = false →
  cache.Get (buildPromptCacheKey name opts) tGet (promptCache l)
    = (prompt, true, false) →
  GetPrompt tGet tSet name (Some opts) l = (prompt, None, l).
Proof. intros Hforce Hget. unfold GetPrompt. by rewrite Hforce, Hget. Qed.

Lemma GetPrompt_stale tGet tSet name opts l stale :
  ForceRefresh opts = false →
  cache.Get (buildPromptCacheKey name opts) tGet (promptCache l)
    = (stale, true, true) →
  GetPrompt tGet tSet name (Some opts) l =
  let '(newPrompt, err, l') := fetchPrompt tSet name opts l in
  match err with
  | Some _ => (stale, None, l')
  | None => (newPrompt, None, l')
  end.
Proof. intros Hforce Hget. unfold GetPrompt. by rewrite Hforce, Hget. Qed.

Lemma GetPrompt_from_API tGet tSet name opts l :
  ForceRefresh opts = true ∨
  cache.entries (promptCache l) !! buildPromptCacheKey name opts = None →
  GetPrompt tGet tSet name (Some opts) l =
  let '(prompt, err, l') := fetchPrompt tSet name opts l in
  match err with
  | Some err =>
      match FallbackPrompt opts with
      | Some fallback => (Some fallback, None, l')
      | None => (None, Some err, l')
      end
  | None => (prompt, None, l')
  end.
Proof.
  intros [Hforce|Hmiss]; unfold GetPrompt.
  - by rewrite Hforce.
  - rewrite (Get_miss _ _ _ Hmiss).
    by destruct (ForceRefresh opts).
Qed.

Lemma GetPrompt_stale_failure tGet tSet name opts l stale err :
  ForceRefresh opts = false →
  cache.Get (buildPromptCacheKey name opts) tGet (promptCache l)
    = (stale, true, true) →
  FetchFailure name opts err →
  GetPrompt tGet tSet name (Some opts) l = (stale, None, l).
Proof.
  intros Hforce Hget Hfail.
  rewrite (GetPrompt_stale _ _ _ _ _ _ Hforce Hget).
  by rewrite (fetchPrompt_failure _ _ _ _ _ Hfail).
Qed.

Lemma GetPrompt_from_API_failure tGet tSet name opts l err :
  ForceRefresh opts = true ∨
  cache.entries (promptCache l) !! buildPromptCacheKey name opts = None →
  FetchFailure name opts err →
  GetPrompt tGet tSet name (Some opts) l =
  match FallbackPrompt opts with
  | Some fallback => (Some fallback, None, l)
  | None => (None, Some err, l)
  end.
Proof.
  intros Hpath Hfail.
  rewrite (GetPrompt_from_API _ _ _ _ _ Hpath).
  by rewrite (fetchPrompt_failure _ _ _ _ _ Hfail).
Qed.

(** The fallback prompt plays no part in the fetch. *)
Lemma FetchFailure_setFallbackPrompt fallback name opts err :
  FetchFailure name opts err →
  FetchFailure name (setFallbackPrompt fallback opts) err.
Proof.
  intros [body st e Hreq | body st Hreq Hst | body st p e Hreq Hst Hparse].
  - by eapply TransportFailure.
  - by eapply StatusFailure.
  - by eapply ParseFailure.
Qed.

Lemma fetchPrompt_setFallbackPrompt fallback now name opts l :
  fetchPrompt now name (setFallbackPrompt fallback opts) l =
  fetchPrompt now name opts l.
Proof. reflexivity. Qed.

Lemma GetPrompt_nil_opts tGet tSet name l :
  GetPrompt tGet tSet name None l = GetPrompt tGet tSet name (Some noOptions) l.
Proof. reflexivity. Qed.

Lemma failed_fetch_unchanged tGet tSet name opts l err :
  FetchFailure name opts err →
  (GetPrompt tGet tSet name (Some opts) l).2 = l.
Proof.
  intros Hfail. unfold GetPrompt.
  rewrite (fetchPrompt_failure _ _ _ _ _ Hfail).
  destruct (ForceRefresh opts); simpl.
  - by destruct (FallbackPrompt opts).
  - destruct (cache.Get _ _ _) as [[prompt [|]] [|]]; simpl;
      try done; by destruct (FallbackPrompt opts).
Qed.

(** ** The claims *)

(** C1.  Stale-while-error: without force refresh, when the cache holds an
    expired entry under the key of the request and the fetch fails,
    GetPrompt returns the expired cached value and a nil error, and leaves
    the client as it was. *)
Theorem stale_while_error tGet tSet name opts l stale err :
  ForceRefresh opts = false →
  cache.Get (buildPromptCacheKey name opts) tGet (promptCache l)
    = (stale, true, true) →
  FetchFailure name opts err →
  GetPrompt tGet tSet name (Some opts) l = (stale, None, l).
Proof.
  intros Hforce Hget Hfail.
  unfold GetPrompt. rewrite Hforce, Hget. simpl.
  (* the refresh of the expired entry fails: the cached value is served *)
  by rewrite (fetchPrompt_failure _ _ _ _ _ Hfail).
Qed.

(** C2.  Fallback-on-miss: when the cache has no entry under the key of
    the request (as in an empty cache) and the fetch fails, GetPrompt
    returns the fallback prompt and a nil error if one is set, and the
    error of the fetch otherwise. *)
Theorem fallback_on_miss tGet tSet name opts l err :
  cache.entries (promptCache l) !! buildPromptCacheKey name opts = None →
  FetchFailure name opts err →
  (∀ fallback, FallbackPrompt opts = Some fallback →
     GetPrompt tGet tSet name (Some opts) l = (Some fallback, None, l)) ∧
  (FallbackPrompt opts = None →
     GetPrompt tGet tSet name (Some opts) l = (None, Some err, l)).
Proof.
  intros Hmiss Hfail.
  pose proof (GetPrompt_from_API_failure tGet tSet name opts l err
                (or_intror Hmiss) Hfail) as Hget.
  split.
  - intros fallback Hfb. by rewrite Hget, Hfb.
  - intros Hfb. by rewrite Hget, Hfb.
Qed.

(** C4.  The cache key is a function of the name, the version and the
    label alone: "prompt:" + name + ":v" + version when a version is set
    (whatever the label), "prompt:" + name + ":l:" + label when only a
    label is set, and "prompt:" + name + ":l:production" when neither is;
    so no version and no label gives the key of the label "production",
    equal inputs give equal keys, and for one name a version key is never
    a label key. *)
Theorem buildPromptCacheKey_spec name opts :
  buildPromptCacheKey name opts =
    match Version opts, Label opts with
    | Some version, _ => ("prompt:" +:+ name) +:+ ":v" +:+ strconv.Itoa version
    | None, Some label => ("prompt:" +:+ name) +:+ ":l:" +:+ label
    | None, None => ("prompt:" +:+ name) +:+ ":l:production"
    end ∧
  (Version opts = None → Label opts = None →
     buildPromptCacheKey name opts =
     buildPromptCacheKey name (setLabel (Some "production") opts)) ∧
  (∀ opts', Version opts' = Version opts → Label opts' = Label opts →
     buildPromptCacheKey name opts' = buildPromptCacheKey name opts) ∧
  (∀ opts', is_Some (Version opts) → Version opts' = None →
     buildPromptCacheKey name opts ≠ buildPromptCacheKey name opts').
Proof.
  unfold buildPromptCacheKey. split_and!.
  - by destruct (Version opts), (Label opts).
  - intros Hv Hl. simpl. by rewrite Hv, Hl.
  - by intros opts' -> ->.
  - intros opts' [version Hv] Hv'. rewrite Hv, Hv'.
    destruct (Label opts'); intros Heq%(inj (String.app _)); discriminate Heq.
Qed.

(** C5.  Force-refresh bypass: with ForceRefresh set and a fetch that
    returns [fetched], GetPrompt returns [fetched] whatever the cache
    holds, and afterwards the cache is the old one with [fetched] written
    under the key of the request, so a lookup of the key finds
    [fetched]. *)
Theorem force_refresh_bypass tGet tSet name opts l fetched :
  ForceRefresh opts = true →
  FetchSuccess name opts fetched →
  (GetPrompt tGet tSet name (Some opts) l).1 = (fetched, None) ∧
  promptCache (GetPrompt tGet tSet name (Some opts) l).2 =
    cache.SetWithTTL (buildPromptCacheKey name opts) fetched
      (effectiveTTL opts l) tSet (promptCache l) ∧
  (∀ t, (cache.Get (buildPromptCacheKey name opts) t
           (promptCache (GetPrompt tGet tSet name (Some opts) l).2)).1
        = (fetched, true)).
Proof.
  intros Hforce Hfetch.
  rewrite (GetPrompt_from_API _ _ _ _ _ (or_introl Hforce)).
  rewrite (fetchPrompt_success _ _ _ _ _ Hfetch). simpl.
  split_and!; [done..|].
  intros t. unfold cache.Get. simpl. by rewrite lookup_insert_eq.
Qed.

(** C8 (as amended).  When the fetch fails on the path that goes to the
    API (force refresh or a cache miss) and no fallback is set, GetPrompt
    returns the error of the fetch: the collaborator's error wrapped
    behind "failed to fetch prompt: ", or "failed to fetch prompt: HTTP
    <status>: <body>", or the parse error wrapped behind "failed to parse
    prompt response: ".  The error is built from the response alone: any
    other request that gets the same response fails with the same
    error. *)
Theorem unrecovered_error_names_the_stage tGet tSet name opts l err :
  FallbackPrompt opts = None →
  ForceRefresh opts = true ∨
  cache.entries (promptCache l) !! buildPromptCacheKey name opts = None →
  FetchFailure name opts err →
  GetPrompt tGet tSet name (Some opts) l = (None, Some err, l) ∧
  ((∃ cause, err = wrapError ("failed to fetch prompt: " +:+ Error cause) cause) ∨
   (∃ statusCode body, 400 ≤ statusCode ∧
      err = errorString ("failed to fetch prompt: HTTP "
                         +:+ strconv.Itoa statusCode +:+ ": " +:+ body)) ∨
   (∃ cause,
      err = wrapError ("failed to parse prompt response: " +:+ Error cause)
              cause)) ∧
  (∀ name' opts',
     DoGetRequest (promptPath name' opts') = DoGetRequest (promptPath name opts) →
     FetchFailure name' opts' err).
Proof.
  intros Hfb Hpath Hfail. split_and!.
  - rewrite (GetPrompt_from_API_failure _ _ _ _ _ _ Hpath Hfail).
    by rewrite Hfb.
  - destruct Hfail as [body st e _ | body st _ Hst | body st p e _ _ _].
    + left. by exists e.
    + right; left. by exists st, body.
    + right; right. by exists e.
  - intros name' opts' Hsame.
    destruct Hfail as [body st e Hreq | body st Hreq Hst
                      | body st p e Hreq Hst Hparse];
      rewrite Hreq in Hsame.
    + by eapply TransportFailure.
    + by eapply StatusFailure.
    + by eapply ParseFailure.
Qed.

(** C9.  A fetch that fails (an error of the transport, a status of 400
    or more, or a body that does not parse, an unknown type included)
    writes nothing: fetchPrompt returns a nil prompt and the error and
    leaves the client, its cache included, as it was, and so does the
    GetPrompt that made the fetch. *)
Theorem failed_fetch_keeps_cache tGet tSet name opts l err :
  FetchFailure name opts err →
  fetchPrompt tSet name opts l = (None, Some err, l) ∧
  (GetPrompt tGet tSet name (Some opts) l).2 = l.
Proof.
  intros Hfail.
  pose proof (fetchPrompt_failure tSet name opts l err Hfail) as Hfetch.
  split; [done|].
  unfold GetPrompt. rewrite Hfetch.
  destruct (ForceRefresh opts); simpl.
  - by destruct (FallbackPrompt opts).
  - destruct (cache.Get _ _ _) as [[prompt [|]] [|]]; simpl;
      try done; by destruct (FallbackPrompt opts).
Qed.

(** C10.  On a cache hit without force refresh the fallback prompt is never
    consulted: GetPrompt returns the same whatever fallback is set, and
    when the entry is expired and the fetch fails it returns the stale
    cached value even with a fallback set. *)
Theorem stale_value_beats_fallback tGet tSet name opts l cached expired :
  ForceRefresh opts = false →
  cache.Get (buildPromptCacheKey name opts) tGet (promptCache l)
    = (cached, true, expired) →
  (∀ fallback,
     GetPrompt tGet tSet name (Some (setFallbackPrompt fallback opts)) l =
     GetPrompt tGet tSet name (Some opts) l) ∧
  (∀ fallback err,
     expired = true → FetchFailure name opts err →
     GetPrompt tGet tSet name (Some (setFallbackPrompt (Some fallback) opts)) l
     = (cached, None, l)).
Proof.
  intros Hforce Hget. split.
  - intros fallback. unfold GetPrompt.
    change (buildPromptCacheKey name (setFallbackPrompt fallback opts))
      with (buildPromptCacheKey name opts).
    change (ForceRefresh (setFallbackPrompt fallback opts))
      with (ForceRefresh opts).
    rewrite Hforce, Hget. simpl.
    by rewrite fetchPrompt_setFallbackPrompt.
  - intros fallback err -> Hfail.
    apply (GetPrompt_stale_failure _ _ _ _ _ _ err); [done..|].
    by apply FetchFailure_setFallbackPrompt.
Qed.

End ResolverFacts.


(** ** The claims on concrete requests *)

Section Examples.

Import time errors model langfuse fixtures.

(* the error of a fetch from the unreachable server *)
Lemma serverDown_fails name opts :
  FetchFailure (deps:=serverDown) name opts
    (Errorf_w "failed to fetch prompt: "
       (errorString "failed to execute request: connection refused")).
Proof. by eapply TransportFailure. Qed.

Lemma serverNotFound_fails name opts :
  FetchFailure (deps:=serverNotFound) name opts
    (errorString "failed to fetch prompt: HTTP 404: not found").
Proof.
  change (errorString "failed to fetch prompt: HTTP 404: not found")
    with (errorString ("failed to fetch prompt: HTTP "
                       +:+ strconv.Itoa 404 +:+ ": " +:+ "not found")).
  by eapply StatusFailure.
Qed.

(* an unknown type discriminant is a parse failure *)
Lemma serverImage_fails name opts :
  FetchFailure (deps:=serverImage) name opts
    (Errorf_w "failed to parse prompt response: "
       (errorString "unknown prompt type: image")).
Proof.
  eapply ParseFailure; [reflexivity | done |].
  by apply (parsePromptResponse_unknown_type (deps:=serverImage)
              "<image prompt>" _ eq_refl).
Qed.

Lemma serverUp_succeeds name opts :
  FetchSuccess (deps:=serverUp) name opts (Some movieCritic).
Proof. exists "<movie-critic v2>", 200. by split_and!. Qed.

Example buildPromptCacheKey_version :
  buildPromptCacheKey "p"
    {| Version := Some 2; Label := Some "staging"; FallbackPrompt := None;
       CacheTTL := None; FetchTimeout := None; ForceRefresh := false |}
  = "prompt:p:v2".
Proof. by vm_compute. Qed.

Example buildPromptCacheKey_label :
  buildPromptCacheKey "p" (setLabel (Some "staging") noOptions)
  = "prompt:p:l:staging".
Proof. by vm_compute. Qed.

Example buildPromptCacheKey_default :
  buildPromptCacheKey "movie-critic" noOptions
  = "prompt:movie-critic:l:production".
Proof. by vm_compute. Qed.

(* the test of Cleanup in cache_test.go: two entries written with a TTL
   of 50ms, a third one 60ms later, then the sweep *)
Example Cleanup_test :
  let c := cache.Set_ "key3" "value3" (60 * Millisecond)
             (cache.Set_ "key2" "value2" 0
                (cache.Set_ "key1" "value1" 0
                   (cache.New (50 * Millisecond)))) in
  cache.Size c = 3 ∧
  cache.Size (cache.Cleanup (60 * Millisecond + 1) c) = 1 ∧
  cache.Get "key3" (60 * Millisecond + 1)
    (cache.Cleanup (60 * Millisecond + 1) c) = ("value3", true, false).
Proof. by vm_compute. Qed.

End Examples.

Lemma stale_while_error_witness :
  langfuse.ForceRefresh langfuse.noOptions = false ∧
  cache.Get (langfuse.buildPromptCacheKey "movie-critic" langfuse.noOptions)
    (2 * time.Minute) (langfuse.promptCache fixtures.seeded)
    = (Some fixtures.oldCritic, true, true) ∧
  langfuse.GetPrompt (deps:=fixtures.serverDown)
    (2 * time.Minute) (2 * time.Minute + 1) "movie-critic"
    (Some langfuse.noOptions) fixtures.seeded
  = (Some fixtures.oldCritic, None, fixtures.seeded).
Proof.
  assert (Hforce : langfuse.ForceRefresh langfuse.noOptions = false)
    by reflexivity.
  assert (Hget : cache.Get
            (langfuse.buildPromptCacheKey "movie-critic" langfuse.noOptions)
            (2 * time.Minute) (langfuse.promptCache fixtures.seeded)
            = (Some fixtures.oldCritic, true, true))
    by (vm_compute; reflexivity).
  split_and!; [exact Hforce | exact Hget |].
  exact (stale_while_error (deps:=fixtures.serverDown) _ _ _ _ _ _ _
           Hforce Hget (serverDown_fails _ _)).
Defined.

Lemma fallback_on_miss_witness :
  cache.entries (langfuse.promptCache langfuse.New)
    !! langfuse.buildPromptCacheKey "movie-critic" fixtures.withFallback = None ∧
  langfuse.GetPrompt (deps:=fixtures.serverDown) 0 1 "movie-critic"
    (Some fixtures.withFallback) langfuse.New
  = (Some fixtures.fallbackCritic, None, langfuse.New).
Proof.
  assert (Hmiss : cache.entries (langfuse.promptCache langfuse.New)
            !! langfuse.buildPromptCacheKey "movie-critic"
                 fixtures.withFallback = None)
    by (vm_compute; reflexivity).
  split; [exact Hmiss|].
  exact (proj1 (fallback_on_miss (deps:=fixtures.serverDown) 0 1
                  "movie-critic" fixtures.withFallback langfuse.New _
                  Hmiss (serverDown_fails _ _))
           fixtures.fallbackCritic eq_refl).
Defined.

Lemma force_refresh_bypass_witness :
  langfuse.ForceRefresh fixtures.forced = true ∧
  cache.Get (langfuse.buildPromptCacheKey "movie-critic" fixtures.forced) 1
    (langfuse.promptCache fixtures.seeded)
    = (Some fixtures.oldCritic, true, false) ∧
  (langfuse.GetPrompt (deps:=fixtures.serverUp) 1 2 "movie-critic"
     (Some fixtures.forced) fixtures.seeded).1
  = (Some fixtures.movieCritic, None) ∧
  (cache.Get (langfuse.buildPromptCacheKey "movie-critic" fixtures.forced) 3
     (langfuse.promptCache
        (langfuse.GetPrompt (deps:=fixtures.serverUp) 1 2 "movie-critic"
           (Some fixtures.forced) fixtures.seeded).2)).1
  = (Some fixtures.movieCritic, true).
Proof.
  assert (Hforce : langfuse.ForceRefresh fixtures.forced = true)
    by reflexivity.
  pose proof (force_refresh_bypass (deps:=fixtures.serverUp) 1 2
                "movie-critic" fixtures.forced fixtures.seeded _
                Hforce (serverUp_succeeds _ _)) as (Hret & _ & Hheld).
  split_and!; [exact Hforce | vm_compute; reflexivity | exact Hret
              | exact (Hheld 3)].
Defined.

Lemma unrecovered_error_names_the_stage_witness :
  langfuse.FallbackPrompt langfuse.noOptions = None ∧
  cache.entries (langfuse.promptCache langfuse.New)
    !! langfuse.buildPromptCacheKey "movie-critic" langfuse.noOptions = None ∧
  langfuse.GetPrompt (deps:=fixtures.serverDown) 0 1 "movie-critic"
    (Some langfuse.noOptions) langfuse.New
  = (None,
     Some (errors.wrapError
             "failed to fetch prompt: failed to execute request: connection refused"
             (errors.errorString
                "failed to execute request: connection refused")),
     langfuse.New).
Proof.
  assert (Hfb : langfuse.FallbackPrompt langfuse.noOptions = None)
    by reflexivity.
  assert (Hmiss : cache.entries (langfuse.promptCache langfuse.New)
            !! langfuse.buildPromptCacheKey "movie-critic"
                 langfuse.noOptions = None)
    by (vm_compute; reflexivity).
  split_and!; [exact Hfb | exact Hmiss |].
  exact (proj1 (unrecovered_error_names_the_stage
                  (deps:=fixtures.serverDown) 0 1 "movie-critic"
                  langfuse.noOptions langfuse.New _ Hfb (or_intror Hmiss)
                  (serverDown_fails _ _))).
Defined.

Lemma failed_fetch_keeps_cache_witness :
  langfuse.fetchPrompt (deps:=fixtures.serverImage) 2 "movie-critic"
    langfuse.noOptions fixtures.seeded
  = (None,
     Some (errors.Errorf_w "failed to parse prompt response: "
             (errors.errorString "unknown prompt type: image")),
     fixtures.seeded) ∧
  (langfuse.GetPrompt (deps:=fixtures.serverImage) 1 2 "movie-critic"
     (Some langfuse.noOptions) fixtures.seeded).2 = fixtures.seeded.
Proof.
  exact (failed_fetch_keeps_cache (deps:=fixtures.serverImage) 1 2
           "movie-critic" langfuse.noOptions fixtures.seeded _
           (serverImage_fails _ _)).
Defined.

Lemma stale_value_beats_fallback_witness :
  langfuse.ForceRefresh langfuse.noOptions = false ∧
  cache.Get (langfuse.buildPromptCacheKey "movie-critic" langfuse.noOptions)
    (2 * time.Minute) (langfuse.promptCache fixtures.seeded)
    = (Some fixtures.oldCritic, true, true) ∧
  langfuse.GetPrompt (deps:=fixtures.serverDown)
    (2 * time.Minute) (2 * time.Minute + 1) "movie-critic"
    (Some fixtures.withFallback) fixtures.seeded
  = (Some fixtures.oldCritic, None, fixtures.seeded).
Proof.
  assert (Hforce : langfuse.ForceRefresh langfuse.noOptions = false)
    by reflexivity.
  assert (Hget : cache.Get
            (langfuse.buildPromptCacheKey "movie-critic" langfuse.noOptions)
            (2 * time.Minute) (langfuse.promptCache fixtures.seeded)
            = (Some fixtures.oldCritic, true, true))
    by (vm_compute; reflexivity).
  split_and!; [exact Hforce | exact Hget |].
  exact (proj2 (stale_value_beats_fallback (deps:=fixtures.serverDown)
                  (2 * time.Minute) (2 * time.Minute + 1) "movie-critic"
                  langfuse.noOptions fixtures.seeded _ _ Hforce Hget)
           fixtures.fallbackCritic _ eq_refl (serverDown_fails _ _)).
Defined.

(** C8 as stated fails: the error GetPrompt returns for a 404 carries the
    status and the body and nothing of the request, so it is the same for
    two requests that differ in name, version and label. *)
Lemma unrecovered_error_has_no_request_context :
  (langfuse.GetPrompt (deps:=fixtures.serverNotFound) 0 1 "movie-critic"
     (Some (langfuse.setLabel (Some "staging") langfuse.noOptions))
     langfuse.New).1
  = (None,
     Some (errors.errorString "failed to fetch prompt: HTTP 404: not found")) ∧
  errors.Contains "failed to fetch prompt: HTTP 404: not found" "movie-critic"
  = false ∧
  errors.Contains "failed to fetch prompt: HTTP 404: not found" "staging"
  = false ∧
  (langfuse.GetPrompt (deps:=fixtures.serverNotFound) 0 1 "summarizer"
     (Some {| langfuse.Version := Some 3; langfuse.Label := None;
              langfuse.FallbackPrompt := None; langfuse.CacheTTL := None;
              langfuse.FetchTimeout := None; langfuse.ForceRefresh := false |})
     langfuse.New).1
  = (None,
     Some (errors.errorString "failed to fetch prompt: HTTP 404: not found")).
Proof. split_and!; vm_compute; reflexivity. Qed.

(** * Properties of the template functions of package [model] *)

Section StringFacts.

Import model.

Implicit Types (s a b pre post old new substr result : string) (i j n : nat).

Lemma append_nil_l s : "" +:+ s = s.
Proof. reflexivity. Qed.

Lemma append_cons c a b : String c a +:+ b = String c (a +:+ b).
Proof. reflexivity. Qed.

Lemma append_nil_r s : s +:+ "" = s.
Proof.
  induction s as [|c s IH]; [done|]. by rewrite append_cons, IH.
Qed.

Lemma append_assoc a b s : (a +:+ b) +:+ s = a +:+ b +:+ s.
Proof.
  induction a as [|c a IH]; [done|]. by rewrite !append_cons, IH.
Qed.

Lemma length_append a b :
  String.length (a +:+ b) = (String.length a + String.length b)%nat.
Proof.
  induction a as [|c a IH]; [done|]. rewrite append_cons. simpl.
  by rewrite IH.
Qed.

Lemma length_zero s : String.length s = 0%nat → s = "".
Proof. by destruct s. Qed.

Lemma substring_prefix a b :
  String.substring 0 (String.length a) (a +:+ b) = a.
Proof.
  induction a as [|c a IH].
  - rewrite append_nil_l. by destruct b.
  - rewrite append_cons. simpl. by rewrite IH.
Qed.

Lemma substring_skip a b i n :
  String.substring (String.length a + i) n (a +:+ b) = String.substring i n b.
Proof.
  induction a as [|c a IH]; [done|]. rewrite append_cons. simpl.
  by rewrite IH.
Qed.

Lemma substring_split s i :
  (i ≤ String.length s)%nat →
  String.substring 0 i s +:+ String.substring i (String.length s - i) s = s.
Proof.
  revert i. induction s as [|c s IH]; intros [|i] Hi; simpl in *; try lia.
  - done.
  - rewrite append_nil_l. f_equal.
    specialize (IH 0%nat ltac:(lia)).
    rewrite Nat.sub_0_r in IH.
    destruct s as [|c' s]; [done|].
    simpl in IH. by rewrite append_nil_l in IH.
  - rewrite append_cons. f_equal. apply IH. lia.
Qed.

Lemma length_substring s i n :
  (i + n ≤ String.length s)%nat →
  String.length (String.substring i n s) = n.
Proof.
  revert i n. induction s as [|c s IH]; intros [|i] [|n] Hi; simpl in *;
    try lia; try done.
  - f_equal. apply (IH 0%nat). lia.
  - apply IH. lia.
  - apply IH. lia.
Qed.

(** A slice equal to [substr] is an occurrence, and conversely. *)
Lemma slice_occursAt s substr i :
  (i + String.length substr ≤ String.length s)%nat ∧
  slice s i (i + String.length substr) = substr ↔ occursAt s substr i.
Proof.
  unfold slice. replace (i + String.length substr - i)%nat
    with (String.length substr) by lia.
  split.
  - intros [Hlen Hsub].
    exists (String.substring 0 i s),
      (String.substring (String.length substr)
         (String.length s - i - String.length substr)
         (String.substring i (String.length s - i) s)).
    split; [|apply length_substring; lia].
    rewrite <- Hsub at 1.
    assert (String.substring i (String.length substr) s =
            String.substring 0 (String.length substr)
              (String.substring i (String.length s - i) s)) as ->.
    { rewrite <- (substring_split s i) at 1 by lia.
      rewrite <- (length_substring s 0 i) at 1 by lia.
      rewrite <- (Nat.add_0_r (String.length (String.substring 0 i s))).
      by rewrite substring_skip. }
    pose proof (substring_split (String.substring i (String.length s - i) s)
                  (String.length substr)) as Hsplit.
    rewrite length_substring in Hsplit by lia.
    replace (String.length s - i - String.length substr)%nat
      with (String.length s - i - String.length substr)%nat by lia.
    rewrite Hsplit by lia. symmetry. apply substring_split. lia.
  - intros (pre & post & -> & <-). split.
    + rewrite !length_append. lia.
    + rewrite <- (Nat.add_0_r (String.length pre)).
      rewrite substring_skip. apply substring_prefix.
Qed.

(** The loop of indexOf returns the first index from [i] on whose slice
    is [substr], among the [steps] it tries, and -1 when there is none. *)
Lemma indexOf_loop_spec s substr steps i :
  (indexOf_loop steps i s substr = -1 ∧
   ∀ j, (i ≤ j < i + steps)%nat →
        slice s j (j + String.length substr) ≠ substr) ∨
  (∃ j, (i ≤ j < i + steps)%nat ∧
        indexOf_loop steps i s substr = Z.of_nat j ∧
        slice s j (j + String.length substr) = substr ∧
        ∀ k, (i ≤ k < j)%nat →
             slice s k (k + String.length substr) ≠ substr).
Proof.
  revert i. induction steps as [|steps IH]; intros i; cbn [indexOf_loop].
  - left. split; [done|]. intros j Hj. lia.
  - destruct (String.eqb_spec (slice s i (i + String.length substr)) substr)
      as [Heq|Hne].
    + right. exists i. split_and!; [lia | lia | done | done |].
      intros k Hk. lia.
    + destruct (IH (S i)) as [[Hnone Hall]|(j & Hj & Hres & Hat & Hfirst)].
      * left. split; [done|]. intros j Hj.
        destruct (decide (j = i)) as [->|]; [done|]. apply Hall. lia.
      * right. exists j. split_and!; [lia | lia | done | done |].
        intros k Hk. destruct (decide (k = i)) as [->|]; [done|].
        apply Hfirst. lia.
Qed.

Lemma occursAt_bound s substr i :
  occursAt s substr i → (i + String.length substr ≤ String.length s)%nat.
Proof. intros H. by apply slice_occursAt in H as [? _]. Qed.

(** indexOf returns the first occurrence, or -1 when there is none. *)
Lemma indexOf_cases s substr :
  (indexOf s substr = -1 ∧ ∀ i, ¬ occursAt s substr i) ∨
  (∃ i, indexOf s substr = Z.of_nat i ∧
        occursAt s substr i ∧
        ∀ j, (j < i)%nat → ¬ occursAt s substr j).
Proof.
  unfold indexOf, len.
  set (steps := Z.to_nat _).
  assert (Hsteps : ∀ j, (j < steps)%nat ↔
                        (j + String.length substr ≤ String.length s)%nat)
    by (intros j; unfold steps; lia).
  destruct (indexOf_loop_spec s substr steps 0)
    as [[Hnone Hall]|(j & Hj & Hres & Hat & Hfirst)].
  - left. split; [done|]. intros i Hocc.
    apply slice_occursAt in Hocc as [Hlen Hslice].
    apply (Hall i); [|done]. apply Hsteps in Hlen. lia.
  - right. exists j.
    assert (Hlen : (j + String.length substr ≤ String.length s)%nat)
      by (apply Hsteps; lia).
    split_and!; [done | by apply slice_occursAt |].
    intros k Hk Hocc. apply slice_occursAt in Hocc as [_ Hslice].
    apply (Hfirst k); [lia | done].
Qed.

Lemma indexOf_none s substr :
  indexOf s substr = -1 ↔ ∀ i, ¬ occursAt s substr i.
Proof.
  destruct (indexOf_cases s substr) as [[Hnone Hall]|(i & Hres & Hocc & _)].
  - done.
  - split; [lia|]. intros Hall. by destruct (Hall i).
Qed.

Lemma indexOf_found s substr i :
  indexOf s substr = Z.of_nat i ↔
  occursAt s substr i ∧ ∀ j, (j < i)%nat → ¬ occursAt s substr j.
Proof.
  destruct (indexOf_cases s substr)
    as [[Hnone Hall]|(i' & Hres & Hocc & Hfirst)].
  - split; [lia|]. intros [Hocc _]. by destruct (Hall i).
  - rewrite Hres. split.
    + intros ->%(inj Z.of_nat). done.
    + intros [Hocc' Hfirst']. f_equal.
      destruct (Nat.lt_trichotomy i i') as [Hlt|[->|Hgt]]; [|done|].
      * by destruct (Hfirst i).
      * by destruct (Hfirst' i').
Qed.

(** X1.  indexOf returns -1 exactly when [substr] does not occur in [s],
    and otherwise the offset of its first occurrence; the offset leaves
    room for [substr] before the end of [s]. *)
Theorem indexOf_first_occurrence s substr :
  (indexOf s substr = -1 ↔ ∀ i, ¬ occursAt s substr i) ∧
  (∀ i, indexOf s substr = Z.of_nat i ↔
        occursAt s substr i ∧ ∀ j, (j < i)%nat → ¬ occursAt s substr j) ∧
  (indexOf s substr = -1 ∨ 0 ≤ indexOf s substr ≤ len s - len substr).
Proof.
  split_and!.
  - apply indexOf_none.
  - apply indexOf_found.
  - destruct (indexOf_cases s substr)
      as [[Hnone _]|(i & Hres & Hocc & _)]; [by left|right].
    apply occursAt_bound in Hocc. unfold len. lia.
Qed.

(** ** replaceAll *)

Lemma slice_before pre old post :
  slice (pre +:+ old +:+ post) 0 (String.length pre) = pre.
Proof. unfold slice. rewrite Nat.sub_0_r. apply substring_prefix. Qed.

Lemma slice_after pre old post :
  slice (pre +:+ old +:+ post) (String.length pre + String.length old)
    (String.length (pre +:+ old +:+ post)) = post.
Proof.
  unfold slice. rewrite !length_append.
  replace (String.length pre + (String.length old + String.length post)
           - (String.length pre + String.length old))%nat
    with (String.length post) by lia.
  rewrite <- append_assoc, <- length_append.
  rewrite <- (Nat.add_0_r (String.length (pre +:+ old))).
  rewrite substring_skip.
  rewrite <- (append_nil_r post) at 2. apply substring_prefix.
Qed.

Lemma replaceAll_loop_none fuel result s old new :
  indexOf s old = -1 →
  replaceAll_loop (S fuel) result s old new = Some (result +:+ s).
Proof. intros Hnone. cbn [replaceAll_loop]. by rewrite Hnone. Qed.

Lemma replaceAll_loop_step fuel result pre old post new :
  indexOf (pre +:+ old +:+ post) old = Z.of_nat (String.length pre) →
  replaceAll_loop (S fuel) result (pre +:+ old +:+ post) old new =
  replaceAll_loop fuel (result +:+ pre +:+ new) post old new.
Proof.
  intros Hat. cbn [replaceAll_loop]. rewrite Hat.
  destruct (Z.eqb_spec (Z.of_nat (String.length pre)) (-1)) as [|_]; [lia|].
  rewrite Nat2Z.id. unfold len.
  rewrite <- Nat2Z.inj_add, Nat2Z.id.
  by rewrite slice_before, slice_after.
Qed.

(** The two ways an iteration goes, with the occurrence made explicit. *)
Lemma indexOf_split s old :
  indexOf s old = -1 ∨
  ∃ pre post, s = pre +:+ old +:+ post ∧
              indexOf s old = Z.of_nat (String.length pre).
Proof.
  destruct (indexOf_cases s old)
    as [[Hnone _]|(i & Hres & (pre & post & -> & <-) & _)]; [by left|].
  right. by exists pre, post.
Qed.

(** The text accumulated so far is only ever extended. *)
Lemma replaceAll_loop_acc fuel result s old new :
  replaceAll_loop fuel result s old new =
  String.app result <$> replaceAll_loop fuel "" s old new.
Proof.
  revert result s. induction fuel as [|fuel IH]; intros result s; [done|].
  destruct (indexOf_split s old) as [Hnone|(pre & post & -> & Hat)].
  - by rewrite !replaceAll_loop_none.
  - rewrite !replaceAll_loop_step by done.
    rewrite (IH (result +:+ _)), (IH ("" +:+ _)).
    destruct (replaceAll_loop fuel "" post old new) as [r|]; [|done].
    simpl. by rewrite append_nil_l, append_assoc.
Qed.

Lemma indexOf_empty s : indexOf s "" = 0.
Proof.
  apply (indexOf_found s "" 0). split; [|intros j Hj; lia].
  by exists "", s.
Qed.

Lemma replaceAll_loop_empty_old fuel result s new :
  replaceAll_loop fuel result s "" new = None.
Proof.
  revert result. induction fuel as [|fuel IH]; intros result; [done|].
  pose proof (replaceAll_loop_step fuel result "" "" s new) as Hstep.
  rewrite !append_nil_l in Hstep. rewrite Hstep by apply indexOf_empty.
  apply IH.
Qed.

Lemma replaceAll_loop_terminates fuel result s old new :
  old ≠ "" → (String.length s < fuel)%nat →
  is_Some (replaceAll_loop fuel result s old new).
Proof.
  intros Hold. revert result s.
  induction fuel as [|fuel IH]; intros result s Hfuel; [lia|].
  destruct (indexOf_split s old) as [Hnone|(pre & post & -> & Hat)].
  - rewrite replaceAll_loop_none by done. eauto.
  - rewrite replaceAll_loop_step by done. apply IH.
    rewrite !length_append in Hfuel.
    assert (String.length old ≠ 0%nat) by (intros ?%length_zero; done).
    lia.
Qed.

Lemma replaceAll_loop_more_fuel fuel fuel' result s old new r :
  replaceAll_loop fuel result s old new = Some r → (fuel ≤ fuel')%nat →
  replaceAll_loop fuel' result s old new = Some r.
Proof.
  revert fuel' result s.
  induction fuel as [|fuel IH]; intros [|fuel'] result s Hr Hle;
    try done; try lia.
  destruct (indexOf_split s old) as [Hnone|(pre & post & -> & Hat)].
  - by rewrite replaceAll_loop_none in * by done.
  - rewrite replaceAll_loop_step in * by done. apply IH; [done|lia].
Qed.

Lemma replaceAll_unchanged s old new :
  (∀ i, ¬ occursAt s old i) → replaceAll s old new = Some s.
Proof.
  intros Hnone%indexOf_none. unfold replaceAll.
  by rewrite replaceAll_loop_none.
Qed.

Lemma replaceAll_first pre old post new :
  old ≠ "" →
  (∀ j, (j < String.length pre)%nat → ¬ occursAt (pre +:+ old +:+ post) old j) →
  replaceAll (pre +:+ old +:+ post) old new =
  (λ r, pre +:+ new +:+ r) <$> replaceAll post old new.
Proof.
  intros Hold Hfirst. unfold replaceAll.
  rewrite replaceAll_loop_step.
  2:{ apply indexOf_found. split; [by exists pre, post | done]. }
  rewrite replaceAll_loop_acc, append_nil_l.
  destruct (replaceAll_loop_terminates (S (String.length post)) "" post
              old new Hold) as [r Hr]; [lia|].
  rewrite Hr.
  rewrite (replaceAll_loop_more_fuel _ _ _ _ _ _ _ Hr).
  - simpl. by rewrite append_assoc.
  - rewrite !length_append.
    assert (String.length old ≠ 0%nat) by (intros ?%length_zero; done).
    lia.
Qed.

Lemma replaceAll_is_Some s old new :
  old ≠ "" → is_Some (replaceAll s old new).
Proof. intros Hold. apply replaceAll_loop_terminates; [done|lia]. Qed.

(** X2.  With a non-empty [old], replaceAll returns: its loop ends within
    len(s)+1 iterations, and running it longer, or from a text already
    accumulated, gives the same replacement appended to that text. *)
Theorem replaceAll_terminates s old new :
  old ≠ "" →
  ∃ r, replaceAll s old new = Some r ∧
       ∀ fuel result, (String.length s < fuel)%nat →
                      replaceAll_loop fuel result s old new
                      = Some (result +:+ r).
Proof.
  intros Hold.
  destruct (replaceAll_is_Some s old new Hold) as [r Hr].
  exists r. split; [done|]. intros fuel result Hfuel.
  rewrite replaceAll_loop_acc.
  by rewrite (replaceAll_loop_more_fuel _ fuel _ _ _ _ _ Hr) by lia.
Qed.

(** X3.  With an empty [old], replaceAll never returns: indexOf finds the
    empty string at offset 0 of every [s], the rest of [s] after it is [s]
    again, and the loop runs on however many iterations it is given. *)
Theorem replaceAll_empty_old_diverges s new :
  indexOf s "" = 0 ∧
  slice s (Z.to_nat (0 + len "")) (String.length s) = s ∧
  (∀ fuel result, replaceAll_loop fuel result s "" new = None) ∧
  replaceAll s "" new = None.
Proof.
  split_and!.
  - apply indexOf_empty.
  - pose proof (slice_after "" "" s) as Hs.
    by rewrite !append_nil_l in Hs.
  - intros fuel result. apply replaceAll_loop_empty_old.
  - apply replaceAll_loop_empty_old.
Qed.

(** X4.  What replaceAll computes: a string without an occurrence of [old]
    is returned as it is, and otherwise the first occurrence of [old] is
    replaced by [new] and the replacement goes on in the text after that
    occurrence only (what was inserted is not looked at again). *)
Theorem replaceAll_leftmost s old new :
  ((∀ i, ¬ occursAt s old i) → replaceAll s old new = Some s) ∧
  (∀ pre post,
     old ≠ "" → s = pre +:+ old +:+ post →
     (∀ j, (j < String.length pre)%nat → ¬ occursAt s old j) →
     replaceAll s old new =
     (λ r, pre +:+ new +:+ r) <$> replaceAll post old new).
Proof.
  split.
  - apply replaceAll_unchanged.
  - intros pre post Hold -> Hfirst. by apply replaceAll_first.
Qed.

(** X5.  Replacing a non-empty [old] by itself gives the string back. *)
Theorem replaceAll_same s old :
  old ≠ "" → replaceAll s old old = Some s.
Proof.
  intros Hold.
  remember (String.length s) as n eqn:Hn. revert s Hn.
  induction n as [n IH] using lt_wf_ind. intros s ->.
  destruct (indexOf_cases s old)
    as [[_ Hnone]|(i & _ & (pre & post & -> & <-) & Hfirst)].
  - by apply replaceAll_unchanged.
  - rewrite replaceAll_first by done.
    rewrite (IH (String.length post)); [done | | done].
    rewrite !length_append.
    assert (String.length old ≠ 0%nat) by (intros ?%length_zero; done).
    lia.
Qed.

(** ** Compile *)

Lemma placeholder_nonempty key : "{{" +:+ key +:+ "}}" ≠ "".
Proof. rewrite !append_cons. discriminate. Qed.

Lemma substitute_is_Some order result : is_Some (substitute order result).
Proof.
  revert result. induction order as [|[key value] order IH]; intros result.
  - by eexists.
  - cbn [substitute].
    destruct (replaceAll_is_Some result ("{{" +:+ key +:+ "}}") value
                (placeholder_nonempty key)) as [r ->].
    apply IH.
Qed.

Lemma substitute_unused order result :
  (∀ key value, (key, value) ∈ order →
                ∀ i, ¬ occursAt result ("{{" +:+ key +:+ "}}") i) →
  substitute order result = Some result.
Proof.
  induction order as [|[key value] order IH]; intros Hunused; [done|].
  cbn [substitute].
  rewrite replaceAll_unchanged by (apply (Hunused key value); by left).
  apply IH. intros k v Hin. apply (Hunused k v). by right.
Qed.

(** The loop over the messages fills the slots from [i] on, one message
    each, and touches no other slot. *)
Lemma ChatPrompt_Compile_loop_spec orders msgs i (result : list ChatMessage) :
  (i + length msgs ≤ length result)%nat →
  ∃ out,
    ChatPrompt_Compile_loop orders i msgs result = Some out ∧
    length out = length result ∧
    (∀ j, (j < i ∨ i + length msgs ≤ j)%nat → out !! j = result !! j) ∧
    (∀ j msg, msgs !! j = Some msg →
       ∃ content,
         substitute (orders (i + j)%nat) (Content msg) = Some content ∧
         out !! (i + j)%nat = Some {| Role := Role msg; Content := content |}).
Proof.
  revert i result.
  induction msgs as [|msg msgs IH]; intros i result Hlen; simpl in *.
  - exists result. split_and!; [done | done | done |]. intros j m Hm. done.
  - destruct (substitute_is_Some (orders i) (Content msg)) as [content Hc].
    rewrite Hc.
    destruct (IH (S i)
                (<[i := {| Role := Role msg; Content := content |}]> result))
      as (out & Hout & Hlength & Hframe & Hfilled).
    { rewrite length_insert. lia. }
    exists out. rewrite length_insert in Hlength.
    split_and!; [done | done | |].
    + intros j Hj. rewrite Hframe by lia.
      apply list_lookup_insert_ne. lia.
    + intros [|j] m Hm; simpl in Hm.
      * injection Hm as <-. exists content. rewrite Nat.add_0_r.
        split; [done|]. rewrite Hframe by lia.
        apply list_lookup_insert_eq. lia.
      * destruct (Hfilled j m Hm) as (c & Hsub & Hat).
        exists c. by replace (i + S j)%nat with (S i + j)%nat by lia.
Qed.

(** X6.  Compile always returns, for a text prompt and for a chat prompt,
    whatever the variables and the order they are visited in: every
    placeholder it hands to replaceAll is at least four bytes long. *)
Theorem Compile_terminates order orders (t : TextPrompt) (c : ChatPrompt) :
  is_Some (TextPrompt_Compile order t) ∧
  is_Some (ChatPrompt_Compile orders c) ∧
  ∀ key, (4 ≤ String.length ("{{" +:+ key +:+ "}}"))%nat.
Proof.
  split_and!.
  - apply substitute_is_Some.
  - destruct (ChatPrompt_Compile_loop_spec orders (chat_Prompt c) 0
                (replicate (length (chat_Prompt c))
                   {| Role := ""; Content := "" |}))
      as (out & Hout & _).
    { rewrite length_replicate. lia. }
    by exists out.
  - intros key. rewrite !length_append. simpl. lia.
Qed.

(** X7.  Variables whose placeholder does not occur in the prompt leave
    it as it is: Compile returns the template unchanged, in whatever order
    the variables are visited. *)
Theorem TextPrompt_Compile_unused order (t : TextPrompt) :
  (∀ key value, (key, value) ∈ order →
                ∀ i, ¬ occursAt (text_Prompt t) ("{{" +:+ key +:+ "}}") i) →
  TextPrompt_Compile order t = Some (text_Prompt t).
Proof. intros Hunused. unfold TextPrompt_Compile. by apply substitute_unused. Qed.

(** X8.  A chat prompt compiles message by message: the result has as
    many messages as the prompt, each with the role of the message at the
    same index and with its content substituted. *)
Theorem ChatPrompt_Compile_messages orders (c : ChatPrompt) :
  ∃ out,
    ChatPrompt_Compile orders c = Some out ∧
    length out = length (chat_Prompt c) ∧
    ∀ i msg, chat_Prompt c !! i = Some msg →
      ∃ content,
        substitute (orders i) (Content msg) = Some content ∧
        out !! i = Some {| Role := Role msg; Content := content |}.
Proof.
  destruct (ChatPrompt_Compile_loop_spec orders (chat_Prompt c) 0
              (replicate (length (chat_Prompt c))
                 {| Role := ""; Content := "" |}))
    as (out & Hout & Hlength & _ & Hfilled).
  { rewrite length_replicate. lia. }
  exists out. rewrite length_replicate in Hlength.
  split_and!; [done | done |].
  intros i msg Hmsg. apply (Hfilled i msg Hmsg).
Qed.

End StringFacts.

(** X9.  The result of Compile can depend on the order in which the map of
    variables is iterated: when the value of one variable contains the
    placeholder of another, the two orders of the same two variables give
    different texts. *)
Theorem TextPrompt_Compile_order_matters :
  ∃ (t : model.TextPrompt) (variables : gmap string string)
    (order1 order2 : list (string * string)),
    model.iterates order1 variables ∧ model.iterates order2 variables ∧
    model.TextPrompt_Compile order1 t = Some "done" ∧
    model.TextPrompt_Compile order2 t = Some "{{next}}".
Proof.
  exists {| model.text_Name := "chain"; model.text_Version := 1;
            model.text_Config := model.anyNil; model.text_Labels := [];
            model.text_Tags := []; model.text_Prompt := "{{first}}";
            model.text_Type := model.PromptTypeText;
            model.text_CommitMessage := None;
            model.text_ResolutionGraph := [] |},
    {[ "first" := "{{next}}"; "next" := "done" ]},
    [("first", "{{next}}"); ("next", "done")],
    [("next", "done"); ("first", "{{next}}")].
  assert (Hlist : map_to_list
                    ({[ "first" := "{{next}}"; "next" := "done" ]}
                       : gmap string string)
                  ≡ₚ [("first", "{{next}}"); ("next", "done")]).
  { rewrite map_to_list_insert by (by vm_compute).
    by rewrite map_to_list_singleton. }
  unfold model.iterates. split_and!.
  - by rewrite Hlist.
  - rewrite Hlist. apply Permutation_swap.
  - by vm_compute.
  - by vm_compute.
Qed.





Lemma replaceAll_terminates_witness :
  "{{name}}" ≠ "" ∧
  ∃ r, model.replaceAll "Hello, {{name}}!" "{{name}}" "Alice" = Some r ∧
       ∀ fuel result, (String.length "Hello, {{name}}!" < fuel)%nat →
                      model.replaceAll_loop fuel result "Hello, {{name}}!"
                        "{{name}}" "Alice"
                      = Some (result +:+ r).
Proof.
  assert (Hold : "{{name}}" ≠ "") by discriminate.
  split; [exact Hold|].
  exact (replaceAll_terminates "Hello, {{name}}!" "{{name}}" "Alice" Hold).
Defined.

Lemma replaceAll_same_witness :
  "-" ≠ "" ∧ model.replaceAll "a-b--c" "-" "-" = Some "a-b--c".
Proof.
  assert (Hold : "-" ≠ "") by discriminate.
  split; [exact Hold|].
  exact (replaceAll_same "a-b--c" "-" Hold).
Defined.

Lemma TextPrompt_Compile_unused_witness :
  (∀ key value, (key, value) ∈ [("unused", "value")] →
     ∀ i, ¬ model.occursAt (model.text_Prompt fixtures.greeting)
              ("{{" +:+ key +:+ "}}") i) ∧
  model.TextPrompt_Compile [("unused", "value")] fixtures.greeting
  = Some "Hello, World!".
Proof.
  assert (Hunused : ∀ key value, (key, value) ∈ [("unused", "value")] →
            ∀ i, ¬ model.occursAt (model.text_Prompt fixtures.greeting)
                     ("{{" +:+ key +:+ "}}") i).
  { intros key value [= -> ->]%list_elem_of_singleton.
    apply indexOf_none. reflexivity. }
  split; [exact Hunused|].
  exact (TextPrompt_Compile_unused [("unused", "value")] fixtures.greeting
           Hunused).
Defined.

(* the first test of Compile: both placeholders are replaced *)
Example TextPrompt_Compile_test :
  model.substitute [("name", "Alice"); ("place", "Wonderland")]
    "Hello, {{name}}! Welcome to {{place}}."
  = Some "Hello, Alice! Welcome to Wonderland.".
Proof. by vm_compute. Qed.

(** * More of the TTL cache *)

Section CacheMore.

Import time cache.

Context {T : Type} `{!ZeroValue T}.
Implicit Types (c : Cache T) (e : Entry T) (k key : string) (v : T).
Implicit Types (now t : Time) (d : Duration).

Lemma Cache_eq c1 c2 :
  entries c1 = entries c2 → ttl c1 = ttl c2 → c1 = c2.
Proof. destruct c1, c2. simpl. by intros -> ->. Qed.

Lemma Cleanup_entries now c :
  entries (Cleanup now c) =
  filter (λ kv, IsExpired now kv.2 = false) (entries c).
Proof. simpl. by apply Cleanup_loop_filter. Qed.

(** X10.  Delete removes the entry of its key and nothing else: the key is
    then a miss, every other key reads as before, the size drops by one
    when the key was present, and deleting an absent key changes nothing. *)
Theorem Delete_removes_only_key c k :
  (∀ now, Get k now (Delete k c) = (zero, false, false)) ∧
  (∀ k' now, k' ≠ k → Get k' now (Delete k c) = Get k' now c) ∧
  Size (Delete k c) =
    match entries c !! k with Some _ => Size c - 1 | None => Size c end ∧
  (entries c !! k = None → Delete k c = c) ∧
  GetTTL (Delete k c) = GetTTL c.
Proof.
  split_and!.
  - intros now. unfold Get, Delete. simpl. by rewrite lookup_delete_eq.
  - intros k' now Hne. unfold Get, Delete. simpl.
    by rewrite lookup_delete_ne.
  - unfold Size, Delete. simpl.
    destruct (entries c !! k) as [e|] eqn:Hk.
    + rewrite map_size_delete_Some by eauto.
      assert (size (entries c) ≠ 0%nat).
      { apply map_size_ne_0_lookup_2 with k. eauto. }
      lia.
    + by rewrite map_size_delete_None.
  - intros Hk. apply Cache_eq; [|done]. simpl. by apply delete_id.
  - done.
Qed.

(** Clear empties the cache and keeps the default TTL: the result
    is the cache New builds for that TTL, its size is 0 and every key is
    a miss. *)
Theorem Clear_resets c :
  Clear c = New (GetTTL c) ∧
  Size (Clear c) = 0 ∧
  ∀ k now, Get k now (Clear c) = (zero, false, false).
Proof.
  split_and!; [done | done |]. intros k now. unfold Get, Clear. simpl.
  by rewrite lookup_empty.
Qed.

(** X11.  SetTTL changes the TTL of later Set calls only: every lookup
    reads as before, the size is the same, an entry written by Set
    afterwards expires the new TTL after its write, and SetWithTTL goes by
    its own argument whatever the default is. *)
Theorem SetTTL_affects_later_writes c d :
  GetTTL (SetTTL d c) = d ∧
  (∀ k now, Get k now (SetTTL d c) = Get k now c) ∧
  Size (SetTTL d c) = Size c ∧
  (∀ k v t t', Get k t' (Set_ k v t (SetTTL d c))
               = (v, true, bool_decide (t + d < t'))) ∧
  (∀ k v d' t t', Get k t' (SetWithTTL k v d' t (SetTTL d c))
                  = Get k t' (SetWithTTL k v d' t c)).
Proof.
  split_and!; [done | done | done | |].
  - intros k v t t'. unfold Get, Set_. simpl.
    by rewrite lookup_insert_eq.
  - intros k v d' t t'. unfold Get, SetWithTTL. simpl.
    by rewrite !lookup_insert_eq.
Qed.

(** X12.  A write touches one key: after Set every other key reads as
    before, the size grows by one when the key is new and stays when it
    is overwritten, the default TTL is kept, and of two writes to one key
    the later one wins with its own expiry. *)
Theorem Set_writes_one_key c k v t :
  (∀ k' now, k' ≠ k → Get k' now (Set_ k v t c) = Get k' now c) ∧
  Size (Set_ k v t c) =
    match entries c !! k with Some _ => Size c | None => Size c + 1 end ∧
  GetTTL (Set_ k v t c) = GetTTL c ∧
  (∀ v0 t0, Set_ k v t (Set_ k v0 t0 c) = Set_ k v t c) ∧
  (∀ v0 d0 t0, Set_ k v t (SetWithTTL k v0 d0 t0 c) = Set_ k v t c) ∧
  Set_ k v t c = SetWithTTL k v (GetTTL c) t c.
Proof.
  split_and!.
  - intros k' now Hne. unfold Get, Set_. simpl.
    by rewrite lookup_insert_ne.
  - unfold Size, Set_. simpl.
    destruct (entries c !! k) as [e|] eqn:Hk.
    + by rewrite map_size_insert_Some by eauto.
    + rewrite map_size_insert_None by done. lia.
  - done.
  - intros v0 t0. apply Cache_eq; [|done]. simpl.
    by rewrite insert_insert_eq.
  - intros v0 d0 t0. apply Cache_eq; [|done]. simpl.
    by rewrite insert_insert_eq.
  - done.
Qed.

(** X13.  After Cleanup at [now] no lookup made at [now] or before finds a
    stale entry; sweeping again at the same or an earlier instant removes
    nothing more, a later sweep subsumes an earlier one, the size never
    grows, and a cache without expired entries is left as it is. *)
Theorem Cleanup_sweeps c now :
  (∀ k t, t ≤ now → (Get k t (Cleanup now c)).2 = false) ∧
  (∀ t, t ≤ now → Cleanup t (Cleanup now c) = Cleanup now c) ∧
  (∀ t, t ≤ now → Cleanup now (Cleanup t c) = Cleanup now c) ∧
  Size (Cleanup now c) ≤ Size c ∧
  ((∀ k, (Get k now c).2 = false) → Cleanup now c = c).
Proof.
  split_and!.
  - intros k t Ht. unfold Get.
    destruct (entries (Cleanup now c) !! k) as [e|] eqn:Hk; [|done].
    simpl. rewrite Cleanup_entries in Hk.
    apply map_lookup_filter_Some in Hk as [_ Hfresh]. simpl in Hfresh.
    unfold IsExpired in *. apply After_false in Hfresh.
    apply After_false. lia.
  - intros t Ht. apply Cache_eq; [|done].
    rewrite (Cleanup_entries t), (Cleanup_entries now).
    rewrite map_filter_filter. apply map_filter_ext.
    intros k e _. simpl. unfold IsExpired. rewrite !After_false. lia.
  - intros t Ht. apply Cache_eq; [|done].
    rewrite (Cleanup_entries now (Cleanup t c)), (Cleanup_entries t),
      (Cleanup_entries now c).
    rewrite map_filter_filter. apply map_filter_ext.
    intros k e _. simpl. unfold IsExpired. rewrite !After_false. lia.
  - unfold Size. rewrite Cleanup_entries.
    apply inj_le, map_size_filter.
  - intros Hfresh. apply Cache_eq; [|done].
    rewrite Cleanup_entries. apply map_filter_id.
    intros k e Hk. simpl. specialize (Hfresh k).
    unfold Get in Hfresh. by rewrite Hk in Hfresh.
Qed.

End CacheMore.

(** * More of the prompt resolver *)

Section ResolverMore.

Import time errors model langfuse.

Context {deps : Collaborators}.
Implicit Types (l : Langfuse) (opts : GetPromptOptions) (name : string).
Implicit Types (e err : error) (prompt stale fetched : option Prompt).

(* the client after a fetch that wrote [fetched] at instant [tSet] *)
Lemma GetPrompt_from_API_success tGet tSet name opts l fetched :
  ForceRefresh opts = true ∨
  cache.entries (promptCache l) !! buildPromptCacheKey name opts = None →
  FetchSuccess name opts fetched →
  GetPrompt tGet tSet name (Some opts) l =
  (fetched, None,
   {| promptCache :=
        cache.SetWithTTL (buildPromptCacheKey name opts) fetched
          (effectiveTTL opts l) tSet (promptCache l);
      promptCacheTTL := promptCacheTTL l |}).
Proof.
  intros Hpath Hfetch.
  rewrite (GetPrompt_from_API _ _ _ _ _ Hpath).
  by rewrite (fetchPrompt_success _ _ _ _ _ Hfetch).
Qed.

Lemma GetPrompt_stale_success tGet tSet name opts l stale fetched :
  ForceRefresh opts = false →
  cache.Get (buildPromptCacheKey name opts) tGet (promptCache l)
    = (stale, true, true) →
  FetchSuccess name opts fetched →
  GetPrompt tGet tSet name (Some opts) l =
  (fetched, None,
   {| promptCache :=
        cache.SetWithTTL (buildPromptCacheKey name opts) fetched
          (effectiveTTL opts l) tSet (promptCache l);
      promptCacheTTL := promptCacheTTL l |}).
Proof.
  intros Hforce Hget Hfetch.
  rewrite (GetPrompt_stale _ _ _ _ _ _ Hforce Hget).
  by rewrite (fetchPrompt_success _ _ _ _ _ Hfetch).
Qed.

Lemma Get_after_SetWithTTL {T} `{!ZeroValue T} (c : cache.Cache T)
    key (v : T) d t t' :
  cache.Get key t' (cache.SetWithTTL key v d t c)
  = (v, true, bool_decide (t + d < t')).
Proof.
  unfold cache.Get, cache.SetWithTTL. simpl. by rewrite lookup_insert_eq.
Qed.

(** The client after GetPrompt is the one before, or the one before with
    the fetched prompt written under the key of the request. *)
Lemma GetPrompt_state tGet tSet name opts l :
  (GetPrompt tGet tSet name (Some opts) l).2 = l ∨
  ∃ fetched,
    FetchSuccess name opts fetched ∧
    (GetPrompt tGet tSet name (Some opts) l).1 = (fetched, None) ∧
    (GetPrompt tGet tSet name (Some opts) l).2 =
    {| promptCache :=
         cache.SetWithTTL (buildPromptCacheKey name opts) fetched
           (effectiveTTL opts l) tSet (promptCache l);
       promptCacheTTL := promptCacheTTL l |}.
Proof.
  destruct (fetch_outcome name opts) as [[err Hfail]|[fetched Hfetch]].
  - left. by apply (failed_fetch_unchanged tGet tSet name opts l err).
  - destruct (ForceRefresh opts) eqn:Hforce.
    { right. exists fetched.
      by rewrite (GetPrompt_from_API_success _ _ _ _ _ _
                    (or_introl Hforce) Hfetch). }
    destruct (cache.Get (buildPromptCacheKey name opts) tGet (promptCache l))
      as [[cached found] expired] eqn:Hget.
    destruct found; [destruct expired|].
    + right. exists fetched.
      by rewrite (GetPrompt_stale_success _ _ _ _ _ _ _ Hforce Hget Hfetch).
    + left. by rewrite (GetPrompt_fresh _ _ _ _ _ _ Hforce Hget).
    + right. exists fetched.
      assert (Hmiss : cache.entries (promptCache l)
                        !! buildPromptCacheKey name opts = None).
      { unfold cache.Get in Hget.
        by destruct (cache.entries (promptCache l) !! _). }
      by rewrite (GetPrompt_from_API_success _ _ _ _ _ _
                    (or_intror Hmiss) Hfetch).
Qed.

(** X14.  parsePromptResponse returns either an error and no prompt, or a
    prompt and no error; the prompt then has exactly one variant, the one
    the "type" field names, and its accessors give the name, version,
    config, labels and tags of the decoded response. *)
Theorem parsePromptResponse_result body :
  (∃ err, parsePromptResponse body = (None, Some err)) ∨
  (∃ raw p,
     Unmarshal_rawPrompt body = inl raw ∧
     parsePromptResponse body = (Some p, None) ∧
     IsText p = bool_decide (raw_Type raw = "text") ∧
     IsChat p = bool_decide (raw_Type raw = "chat") ∧
     IsText p = negb (IsChat p) ∧
     GetName p = raw_Name raw ∧ GetVersion p = raw_Version raw ∧
     GetConfig p = raw_Config raw ∧ GetLabels p = raw_Labels raw ∧
     GetTags p = raw_Tags raw).
Proof.
  unfold parsePromptResponse.
  destruct (Unmarshal_rawPrompt body) as [raw|e]; [|left; by eexists].
  destruct (String.eqb_spec (raw_Type raw) "text") as [Htext|Htext].
  - destruct (Unmarshal_string _) as [promptStr|e]; [|left; by eexists].
    right. eexists raw, _. split_and!; try done.
    + simpl. by rewrite bool_decide_eq_true_2.
    + simpl. rewrite Htext. by rewrite bool_decide_eq_false_2.
  - destruct (String.eqb_spec (raw_Type raw) "chat") as [Hchat|Hchat].
    + destruct (Unmarshal_messages _) as [messages|e]; [|left; by eexists].
      right. eexists raw, _. split_and!; try done.
      * simpl. by rewrite bool_decide_eq_false_2.
      * simpl. by rewrite bool_decide_eq_true_2.
    + left. by eexists.
Qed.

(** X15.  A prompt fetched once is served from the cache: after a call
    that went to the API and succeeded, every later call without force
    refresh that maps to the same key and looks the cache up no later than
    the TTL after the write returns the fetched prompt with a nil error
    and leaves the client alone, whatever the server would answer then. *)
Theorem GetPrompt_caches tGet tSet name opts l fetched :
  ForceRefresh opts = true ∨
  cache.entries (promptCache l) !! buildPromptCacheKey name opts = None →
  FetchSuccess name opts fetched →
  (GetPrompt tGet tSet name (Some opts) l).1 = (fetched, None) ∧
  ∀ (later : Collaborators) tGet' tSet' name' opts',
    buildPromptCacheKey name' opts' = buildPromptCacheKey name opts →
    ForceRefresh opts' = false →
    tGet' ≤ tSet + effectiveTTL opts l →
    GetPrompt (deps:=later) tGet' tSet' name' (Some opts')
      (GetPrompt (deps:=deps) tGet tSet name (Some opts) l).2
    = (fetched, None,
       (GetPrompt (deps:=deps) tGet tSet name (Some opts) l).2).
Proof.
  intros Hpath Hfetch.
  rewrite (GetPrompt_from_API_success _ _ _ _ _ _ Hpath Hfetch).
  split; [done|].
  intros later tGet' tSet' name' opts' Hkey Hforce Hfresh.
  apply (GetPrompt_fresh (deps:=later)); [done|].
  rewrite Hkey. cbn [promptCache snd]. rewrite Get_after_SetWithTTL.
  by rewrite bool_decide_eq_false_2 by lia.
Qed.

(** X16.  A stale entry is refreshed by a fetch that succeeds: the call
    returns the fetched prompt, and the entry under the key now holds it
    and expires the TTL of the request after the write. *)
Theorem GetPrompt_refreshes_stale tGet tSet name opts l stale fetched :
  ForceRefresh opts = false →
  cache.Get (buildPromptCacheKey name opts) tGet (promptCache l)
    = (stale, true, true) →
  FetchSuccess name opts fetched →
  (GetPrompt tGet tSet name (Some opts) l).1 = (fetched, None) ∧
  ∀ t, cache.Get (buildPromptCacheKey name opts) t
         (promptCache (GetPrompt tGet tSet name (Some opts) l).2)
       = (fetched, true, bool_decide (tSet + effectiveTTL opts l < t)).
Proof.
  intros Hforce Hget Hfetch.
  rewrite (GetPrompt_stale_success _ _ _ _ _ _ _ Hforce Hget Hfetch).
  split; [done|]. intros t. cbn [promptCache snd]. apply Get_after_SetWithTTL.
Qed.

(** X17.  Once fetched, a prompt outlives its TTL while the server is
    down: a later call without force refresh for the same request, made
    after the entry has expired and whose fetch fails, still returns the
    fetched prompt with a nil error, with or without a fallback. *)
Theorem GetPrompt_survives_outage tGet tSet name opts l fetched :
  ForceRefresh opts = true ∨
  cache.entries (promptCache l) !! buildPromptCacheKey name opts = None →
  FetchSuccess name opts fetched →
  ∀ (later : Collaborators) tGet' tSet' opts' err,
    buildPromptCacheKey name opts' = buildPromptCacheKey name opts →
    ForceRefresh opts' = false →
    tSet + effectiveTTL opts l < tGet' →
    FetchFailure (deps:=later) name opts' err →
    GetPrompt (deps:=later) tGet' tSet' name (Some opts')
      (GetPrompt (deps:=deps) tGet tSet name (Some opts) l).2
    = (fetched, None,
       (GetPrompt (deps:=deps) tGet tSet name (Some opts) l).2).
Proof.
  intros Hpath Hfetch later tGet' tSet' opts' err Hkey Hforce Hlate Hfail.
  rewrite (GetPrompt_from_API_success _ _ _ _ _ _ Hpath Hfetch).
  apply (GetPrompt_stale_failure (deps:=later) _ _ _ _ _ _ err);
    [done | | done].
  rewrite Hkey. cbn [promptCache snd]. rewrite Get_after_SetWithTTL.
  by rewrite bool_decide_eq_true_2 by lia.
Qed.

(** X18.  ClearPromptCache forgets every prompt and keeps the TTL: the
    next call for any request goes to the API, so it returns what the
    fetch returns, and when the fetch fails the fallback or the error,
    never a prompt cached before. *)
Theorem ClearPromptCache_forgets tGet tSet name opts l :
  promptCacheTTL (ClearPromptCache l) = promptCacheTTL l ∧
  cache.Size (promptCache (ClearPromptCache l)) = 0 ∧
  (∀ fetched, FetchSuccess name opts fetched →
     (GetPrompt tGet tSet name (Some opts) (ClearPromptCache l)).1
     = (fetched, None)) ∧
  (∀ err, FetchFailure name opts err →
     GetPrompt tGet tSet name (Some opts) (ClearPromptCache l) =
     match FallbackPrompt opts with
     | Some fallback => (Some fallback, None, ClearPromptCache l)
     | None => (None, Some err, ClearPromptCache l)
     end).
Proof.
  assert (Hmiss : ForceRefresh opts = true ∨
            cache.entries (promptCache (ClearPromptCache l))
              !! buildPromptCacheKey name opts = None).
  { right. apply lookup_empty. }
  split_and!; [done | done | |].
  - intros fetched Hfetch.
    by rewrite (GetPrompt_from_API_success _ _ _ _ _ _ Hmiss Hfetch).
  - intros err Hfail. by apply GetPrompt_from_API_failure.
Qed.

(** X19.  The expiry of a fetched entry: it is the instant of the write
    plus the CacheTTL of the request when that is set, and plus the TTL
    given to WithPromptCacheTTL otherwise; WithPromptCacheTTL itself
    changes no lookup of the entries already cached. *)
Theorem WithPromptCacheTTL_sets_expiry ttl tGet tSet name opts l fetched :
  ForceRefresh opts = true ∨
  cache.entries (promptCache l) !! buildPromptCacheKey name opts = None →
  FetchSuccess name opts fetched →
  (∀ key t, cache.Get key t (promptCache (WithPromptCacheTTL ttl l))
            = cache.Get key t (promptCache l)) ∧
  ∀ t, cache.Get (buildPromptCacheKey name opts) t
         (promptCache
            (GetPrompt tGet tSet name (Some opts)
               (WithPromptCacheTTL ttl l)).2)
       = (fetched, true,
          bool_decide
            (tSet + match CacheTTL opts with Some d => d | None => ttl end
             < t)).
Proof.
  intros Hpath Hfetch. split; [done|]. intros t.
  rewrite (GetPrompt_from_API_success _ _ _ _ _ fetched); [|done|done].
  cbn [promptCache snd]. apply Get_after_SetWithTTL.
Qed.

(** X20.  GetPrompt writes at most the entry of its own key: the entries
    under every other key, the TTL of the client and the default TTL of
    the cache are the same after the call as before. *)
Theorem GetPrompt_frame tGet tSet name opts l :
  (∀ key, key ≠ buildPromptCacheKey name opts →
     cache.entries (promptCache (GetPrompt tGet tSet name (Some opts) l).2)
       !! key
     = cache.entries (promptCache l) !! key) ∧
  promptCacheTTL (GetPrompt tGet tSet name (Some opts) l).2
    = promptCacheTTL l ∧
  cache.GetTTL (promptCache (GetPrompt tGet tSet name (Some opts) l).2)
    = cache.GetTTL (promptCache l).
Proof.
  destruct (GetPrompt_state tGet tSet name opts l)
    as [->|(fetched & _ & _ & ->)]; [done|].
  split_and!; [|done|done].
  intros key Hne. simpl. by rewrite lookup_insert_ne.
Qed.

(** X21.  GetPrompt never returns a nil prompt together with a nil error,
    nor a prompt together with an error, as long as no cached prompt is
    nil; and it keeps the cache that way. *)
Theorem GetPrompt_prompt_or_error tGet tSet name o l :
  (∀ key entry, cache.entries (promptCache l) !! key = Some entry →
                is_Some (cache.Value entry)) →
  ((∃ p, (GetPrompt tGet tSet name o l).1 = (Some p, None)) ∨
   (∃ err, (GetPrompt tGet tSet name o l).1 = (None, Some err))) ∧
  (∀ key entry,
     cache.entries (promptCache (GetPrompt tGet tSet name o l).2) !! key
       = Some entry →
     is_Some (cache.Value entry)).
Proof.
  intros Hnonnil.
  assert (∃ opts, GetPrompt tGet tSet name o l
                  = GetPrompt tGet tSet name (Some opts) l) as [opts ->].
  { destruct o as [opts|]; [by exists opts | by exists noOptions]. }
  assert (Hparsed : ∀ fetched, FetchSuccess name opts fetched →
                               is_Some fetched).
  { intros fetched (body & st & _ & _ & Hparse).
    apply parsePromptResponse_ok in Hparse as (p & -> & _). eauto. }
  split.
  - destruct (ForceRefresh opts) eqn:Hforce;
      [|destruct (cache.Get (buildPromptCacheKey name opts) tGet
                    (promptCache l)) as [[cached found] expired] eqn:Hget;
        destruct found].
    2:{ (* a hit: the cached prompt or a fetched one *)
        assert (is_Some cached) as [p ->].
        { unfold cache.Get in Hget.
          destruct (cache.entries (promptCache l) !! _) as [entry|] eqn:He;
            [|done].
          injection Hget as <- _. by eapply Hnonnil. }
        destruct expired.
        - destruct (fetch_outcome name opts) as [[err Hfail]|[f Hfetch]].
          + left. exists p.
            by rewrite (GetPrompt_stale_failure _ _ _ _ _ _ _ Hforce Hget
                          Hfail).
          + destruct (Hparsed f Hfetch) as [q ->]. left. exists q.
            by rewrite (GetPrompt_stale_success _ _ _ _ _ _ _ Hforce Hget
                          Hfetch).
        - left. exists p. by rewrite (GetPrompt_fresh _ _ _ _ _ _ Hforce Hget). }
    all: assert (Hpath : ForceRefresh opts = true ∨
                   cache.entries (promptCache l)
                     !! buildPromptCacheKey name opts = None)
      by (first [by left
                | right; unfold cache.Get in Hget;
                  by destruct (cache.entries (promptCache l) !! _)]).
    all: destruct (fetch_outcome name opts) as [[err Hfail]|[f Hfetch]].
    all: first
      [ rewrite (GetPrompt_from_API_failure _ _ _ _ _ _ Hpath Hfail);
        destruct (FallbackPrompt opts) as [fb|];
        [left; by exists fb | right; by exists err]
      | destruct (Hparsed f Hfetch) as [q ->]; left; exists q;
        by rewrite (GetPrompt_from_API_success _ _ _ _ _ _ Hpath Hfetch) ].
  - destruct (GetPrompt_state tGet tSet name opts l)
      as [->|(fetched & Hfetch & _ & ->)]; [done|].
    intros key entry. simpl.
    destruct (decide (key = buildPromptCacheKey name opts)) as [->|Hne].
    + rewrite lookup_insert_eq. intros [= <-]. simpl. by apply Hparsed.
    + rewrite lookup_insert_ne by done. apply Hnonnil.
Qed.

(** X22.  The cache key does not tell every request from every other:
    the label "<label>:v<n>" of the prompt "<name>" and the version n of
    the prompt "<name>:l:<label>" have one key.  So once the first is
    fetched, a call for the second within the TTL is answered with the
    prompt of the first and no fetch. *)
Theorem buildPromptCacheKey_collision name label version :
  let byLabel :=
    setLabel (Some (label +:+ ":v" +:+ strconv.Itoa version)) noOptions in
  let byVersion :=
    {| Version := Some version; Label := None; FallbackPrompt := None;
       CacheTTL := None; FetchTimeout := None; ForceRefresh := false |} in
  name ≠ name +:+ ":l:" +:+ label ∧
  buildPromptCacheKey name byLabel
  = buildPromptCacheKey (name +:+ ":l:" +:+ label) byVersion ∧
  ∀ (later : Collaborators) tGet tSet tGet' tSet' l fetched,
    cache.entries (promptCache l) !! buildPromptCacheKey name byLabel = None →
    FetchSuccess (deps:=deps) name byLabel fetched →
    tGet' ≤ tSet + promptCacheTTL l →
    GetPrompt (deps:=later) tGet' tSet' (name +:+ ":l:" +:+ label)
      (Some byVersion)
      (GetPrompt (deps:=deps) tGet tSet name (Some byLabel) l).2
    = (fetched, None,
       (GetPrompt (deps:=deps) tGet tSet name (Some byLabel) l).2).
Proof.
  intros byLabel byVersion.
  assert (Hkey : buildPromptCacheKey name byLabel
                 = buildPromptCacheKey (name +:+ ":l:" +:+ label) byVersion).
  { unfold buildPromptCacheKey, byLabel, byVersion. simpl.
    by rewrite <- !append_assoc. }
  split_and!.
  - intros Heq. apply (f_equal String.length) in Heq.
    rewrite !length_append in Heq. simpl in Heq. lia.
  - done.
  - intros later tGet tSet tGet' tSet' l fetched Hmiss Hfetch Hfresh.
    rewrite (GetPrompt_from_API_success _ _ _ byLabel _
               fetched (or_intror Hmiss) Hfetch).
    apply (GetPrompt_fresh (deps:=later)); [done|].
    rewrite <- Hkey. cbn [promptCache snd].
    rewrite Get_after_SetWithTTL.
    by rewrite bool_decide_eq_false_2 by (unfold effectiveTTL; simpl; lia).
Qed.

(** X23.  Which request a call makes depends on the name, the version
    and, without a version, the label, and on nothing else: two option
    sets that agree on these give the same cache key and the same request
    path, whatever their fallback, TTL, timeout and force-refresh fields;
    with a version set the label plays no part. *)
Theorem request_identity name opts opts' :
  Version opts = Version opts' →
  (Version opts = None → Label opts = Label opts') →
  buildPromptCacheKey name opts = buildPromptCacheKey name opts' ∧
  promptPath name opts = promptPath name opts'.
Proof.
  intros Hv Hl. unfold buildPromptCacheKey, promptPath. rewrite <- Hv.
  destruct (Version opts) as [v|]; [done|]. by rewrite Hl.
Qed.

End ResolverMore.



Lemma New_miss key :
  cache.entries (langfuse.promptCache langfuse.New) !! key = None.
Proof. apply lookup_empty. Qed.

Lemma seeded_stale :
  cache.Get (langfuse.buildPromptCacheKey "movie-critic" langfuse.noOptions)
    (2 * time.Minute) (langfuse.promptCache fixtures.seeded)
  = (Some fixtures.oldCritic, true, true).
Proof. by vm_compute. Qed.

Lemma GetPrompt_caches_witness :
  cache.entries (langfuse.promptCache langfuse.New)
    !! langfuse.buildPromptCacheKey "movie-critic" langfuse.noOptions = None ∧
  (langfuse.GetPrompt (deps:=fixtures.serverUp) 0 1 "movie-critic"
     (Some langfuse.noOptions) langfuse.New).1
  = (Some fixtures.movieCritic, None) ∧
  langfuse.GetPrompt (deps:=fixtures.serverDown)
    (4 * time.Minute) (4 * time.Minute) "movie-critic"
    (Some fixtures.withFallback)
    (langfuse.GetPrompt (deps:=fixtures.serverUp) 0 1 "movie-critic"
       (Some langfuse.noOptions) langfuse.New).2
  = (Some fixtures.movieCritic, None,
     (langfuse.GetPrompt (deps:=fixtures.serverUp) 0 1 "movie-critic"
        (Some langfuse.noOptions) langfuse.New).2).
Proof.
  pose proof (GetPrompt_caches (deps:=fixtures.serverUp) 0 1 "movie-critic"
                langfuse.noOptions langfuse.New _
                (or_intror (New_miss _)) (serverUp_succeeds _ _))
    as [Hfirst Hlater].
  split_and!; [apply New_miss | exact Hfirst |].
  apply (Hlater fixtures.serverDown); [reflexivity | reflexivity |].
  by vm_compute.
Defined.

Lemma GetPrompt_refreshes_stale_witness :
  langfuse.ForceRefresh langfuse.noOptions = false ∧
  cache.Get (langfuse.buildPromptCacheKey "movie-critic" langfuse.noOptions)
    (2 * time.Minute) (langfuse.promptCache fixtures.seeded)
  = (Some fixtures.oldCritic, true, true) ∧
  (langfuse.GetPrompt (deps:=fixtures.serverUp)
     (2 * time.Minute) (2 * time.Minute + 1) "movie-critic"
     (Some langfuse.noOptions) fixtures.seeded).1
  = (Some fixtures.movieCritic, None).
Proof.
  split_and!; [reflexivity | exact seeded_stale |].
  exact (proj1 (GetPrompt_refreshes_stale (deps:=fixtures.serverUp)
                  (2 * time.Minute) (2 * time.Minute + 1) "movie-critic"
                  langfuse.noOptions fixtures.seeded _ _
                  eq_refl seeded_stale (serverUp_succeeds _ _))).
Defined.

Lemma GetPrompt_survives_outage_witness :
  cache.entries (langfuse.promptCache langfuse.New)
    !! langfuse.buildPromptCacheKey "movie-critic" langfuse.noOptions = None ∧
  0 + 1 + langfuse.effectiveTTL langfuse.noOptions langfuse.New
    < 60 * time.Minute ∧
  langfuse.GetPrompt (deps:=fixtures.serverDown)
    (60 * time.Minute) (60 * time.Minute) "movie-critic"
    (Some fixtures.withFallback)
    (langfuse.GetPrompt (deps:=fixtures.serverUp) 0 1 "movie-critic"
       (Some langfuse.noOptions) langfuse.New).2
  = (Some fixtures.movieCritic, None,
     (langfuse.GetPrompt (deps:=fixtures.serverUp) 0 1 "movie-critic"
        (Some langfuse.noOptions) langfuse.New).2).
Proof.
  split_and!; [apply New_miss | by vm_compute |].
  eapply (GetPrompt_survives_outage (deps:=fixtures.serverUp) 0 1
            "movie-critic" langfuse.noOptions langfuse.New _
            (or_intror (New_miss _)) (serverUp_succeeds _ _)
            fixtures.serverDown);
    [reflexivity | reflexivity | by vm_compute | apply serverDown_fails].
Defined.

Lemma WithPromptCacheTTL_sets_expiry_witness :
  cache.entries (langfuse.promptCache langfuse.New)
    !! langfuse.buildPromptCacheKey "movie-critic" langfuse.noOptions = None ∧
  cache.Get (langfuse.buildPromptCacheKey "movie-critic" langfuse.noOptions)
    (8 * time.Minute)
    (langfuse.promptCache
       (langfuse.GetPrompt (deps:=fixtures.serverUp) 0 1 "movie-critic"
          (Some langfuse.noOptions)
          (langfuse.WithPromptCacheTTL (10 * time.Minute) langfuse.New)).2)
  = (Some fixtures.movieCritic, true, false).
Proof.
  split; [apply New_miss|].
  exact (proj2 (WithPromptCacheTTL_sets_expiry (deps:=fixtures.serverUp)
                  (10 * time.Minute) 0 1 "movie-critic" langfuse.noOptions
                  langfuse.New _ (or_intror (New_miss _))
                  (serverUp_succeeds _ _))
           (8 * time.Minute)).
Defined.

Lemma seeded_nonnil key (entry : cache.Entry (option model.Prompt)) :
  cache.entries (langfuse.promptCache fixtures.seeded) !! key = Some entry →
  is_Some (cache.Value entry).
Proof.
  unfold fixtures.seeded. simpl.
  destruct (decide (key = "prompt:movie-critic:l:production")) as [->|Hne].
  - rewrite lookup_insert_eq. intros [= <-]. by eexists.
  - by rewrite lookup_insert_ne, lookup_empty by done.
Qed.

Lemma GetPrompt_prompt_or_error_witness :
  ((∃ p, (langfuse.GetPrompt (deps:=fixtures.serverImage)
            (2 * time.Minute) (2 * time.Minute) "movie-critic" None
            fixtures.seeded).1 = (Some p, None)) ∨
   (∃ err, (langfuse.GetPrompt (deps:=fixtures.serverImage)
              (2 * time.Minute) (2 * time.Minute) "movie-critic" None
              fixtures.seeded).1 = (None, Some err))) ∧
  (∀ key entry,
     cache.entries
       (langfuse.promptCache
          (langfuse.GetPrompt (deps:=fixtures.serverImage)
             (2 * time.Minute) (2 * time.Minute) "movie-critic" None
             fixtures.seeded).2) !! key = Some entry →
     is_Some (cache.Value entry)).
Proof.
  exact (GetPrompt_prompt_or_error (deps:=fixtures.serverImage)
           (2 * time.Minute) (2 * time.Minute) "movie-critic" None
           fixtures.seeded seeded_nonnil).
Defined.

Lemma request_identity_witness :
  langfuse.Version fixtures.forced = langfuse.Version fixtures.withFallback ∧
  langfuse.buildPromptCacheKey "movie-critic" fixtures.forced
  = langfuse.buildPromptCacheKey "movie-critic" fixtures.withFallback ∧
  langfuse.promptPath (deps:=fixtures.serverUp) "movie-critic" fixtures.forced
  = langfuse.promptPath (deps:=fixtures.serverUp) "movie-critic"
      fixtures.withFallback.
Proof.
  split; [reflexivity|].
  exact (request_identity (deps:=fixtures.serverUp) "movie-critic"
           fixtures.forced fixtures.withFallback eq_refl (λ _, eq_refl)).
Defined.

(** * The ingestion path *)

Section IngestionFacts.

Import time errors model langfuse.

Context {rt : Runtime}.
Implicit Types (w : Process) (id name : string).

Lemma buildID_run id w : buildID (Some id) w = (idIn w id, afterID id w).
Proof.
  unfold buildID, idIn, afterID. by destruct (String.eqb id "").
Qed.

Lemma dispatchNew_buildID_run ty body w :
  dispatchNew (buildID None) ty body w = (tt, dispatched ty body w).
Proof. reflexivity. Qed.

Lemma dispatchNew_uuidString_run ty body w :
  dispatchNew uuidString ty body w = (tt, dispatched ty body w).
Proof. reflexivity. Qed.

Lemma bind_run {A B} (m : M A) (k : A → M B) w :
  (m ≫= k) w = let '(a, w') := m w in k a w'.
Proof. reflexivity. Qed.

Lemma Trace_run (t : model.Trace) w :
  Trace t w =
  (Some (Trace_set_ID (idIn w (trace_ID t)) t), None,
   dispatched IngestionEventTypeTraceCreate
     (BodyTrace (Trace_set_ID (idIn w (trace_ID t)) t))
     (afterID (trace_ID t) w)).
Proof.
  unfold Trace. rewrite bind_run, buildID_run.
  by rewrite bind_run, dispatchNew_buildID_run.
Qed.

Lemma createTrace_run name w :
  createTrace name w =
  (uuidNew (uuidsDrawn w), None,
   dispatched IngestionEventTypeTraceCreate
     (BodyTrace (Trace_set_ID (uuidNew (uuidsDrawn w)) (Trace_named name)))
     (drew 1 w)).
Proof. unfold createTrace. by rewrite bind_run, Trace_run. Qed.

Lemma Generation_run_traced (g : model.Generation) parentID w :
  gen_TraceID g ≠ "" →
  Generation g parentID w =
  let g' := Generation_set (gen_TraceID g)
              (default (gen_ParentObservationID g) parentID)
              (idIn w (gen_ID g)) g in
  (Some g', None,
   dispatched IngestionEventTypeGenerationCreate (BodyGeneration g')
     (afterID (gen_ID g) w)).
Proof.
  intros Hne%String.eqb_neq. unfold Generation. rewrite Hne.
  rewrite bind_run. cbn [ret]. rewrite bind_run, buildID_run.
  rewrite bind_run, dispatchNew_buildID_run. by destruct parentID.
Qed.

Lemma Generation_run_untraced (g : model.Generation) parentID w :
  gen_TraceID g = "" →
  Generation g parentID w =
  let w1 := dispatched IngestionEventTypeTraceCreate
              (BodyTrace (Trace_set_ID (uuidNew (uuidsDrawn w))
                            (Trace_named (gen_Name g))))
              (drew 1 w) in
  let g' := Generation_set (uuidNew (uuidsDrawn w))
              (default (gen_ParentObservationID g) parentID)
              (idIn w1 (gen_ID g)) g in
  (Some g', None,
   dispatched IngestionEventTypeGenerationCreate (BodyGeneration g')
     (afterID (gen_ID g) w1)).
Proof.
  intros Heq. unfold Generation. rewrite Heq. cbn [String.eqb].
  rewrite bind_run, createTrace_run.
  rewrite bind_run, buildID_run.
  rewrite bind_run, dispatchNew_buildID_run. by destruct parentID.
Qed.

Lemma Span_run_traced (s : model.Span) parentID w :
  span_TraceID s ≠ "" →
  Span s parentID w =
  let s' := Span_set (span_TraceID s)
              (default (span_ParentObservationID s) parentID)
              (idIn w (span_ID s)) s in
  (Some s', None,
   dispatched IngestionEventTypeSpanCreate (BodySpan s')
     (afterID (span_ID s) w)).
Proof.
  intros Hne%String.eqb_neq. unfold Span. rewrite Hne.
  rewrite bind_run. cbn [ret]. rewrite bind_run, buildID_run.
  rewrite bind_run, dispatchNew_buildID_run. by destruct parentID.
Qed.

Lemma Span_run_untraced (s : model.Span) parentID w :
  span_TraceID s = "" →
  Span s parentID w =
  let w1 := dispatched IngestionEventTypeTraceCreate
              (BodyTrace (Trace_set_ID (uuidNew (uuidsDrawn w))
                            (Trace_named (span_Name s))))
              (drew 1 w) in
  let s' := Span_set (uuidNew (uuidsDrawn w))
              (default (span_ParentObservationID s) parentID)
              (idIn w1 (span_ID s)) s in
  (Some s', None,
   dispatched IngestionEventTypeSpanCreate (BodySpan s')
     (afterID (span_ID s) w1)).
Proof.
  intros Heq. unfold Span. rewrite Heq. cbn [String.eqb].
  rewrite bind_run, createTrace_run.
  rewrite bind_run, buildID_run.
  rewrite bind_run, dispatchNew_buildID_run. by destruct parentID.
Qed.

Lemma Event_run_traced (e : model.Event) parentID w :
  event_TraceID e ≠ "" →
  Event e parentID w =
  let e' := Event_set (event_TraceID e)
              (default (event_ParentObservationID e) parentID)
              (idIn w (event_ID e)) e in
  (Some e', None,
   dispatched IngestionEventTypeEventCreate (BodyEvent e')
     (afterID (event_ID e) w)).
Proof.
  intros Hne%String.eqb_neq. unfold Event. rewrite Hne.
  rewrite bind_run. cbn [ret]. rewrite bind_run, buildID_run.
  rewrite bind_run, dispatchNew_uuidString_run. by destruct parentID.
Qed.

Lemma Event_run_untraced (e : model.Event) parentID w :
  event_TraceID e = "" →
  Event e parentID w =
  let w1 := dispatched IngestionEventTypeTraceCreate
              (BodyTrace (Trace_set_ID (uuidNew (uuidsDrawn w))
                            (Trace_named (event_Name e))))
              (drew 1 w) in
  let e' := Event_set (uuidNew (uuidsDrawn w))
              (default (event_ParentObservationID e) parentID)
              (idIn w1 (event_ID e)) e in
  (Some e', None,
   dispatched IngestionEventTypeEventCreate (BodyEvent e')
     (afterID (event_ID e) w1)).
Proof.
  intros Heq. unfold Event. rewrite Heq. cbn [String.eqb].
  rewrite bind_run, createTrace_run.
  rewrite bind_run, buildID_run.
  rewrite bind_run, dispatchNew_uuidString_run. by destruct parentID.
Qed.

Lemma Score_run (s : model.Score) w :
  score_TraceID s ≠ "" ∨ score_SessionID s ≠ "" →
  Score s w =
  (Some (Score_set_ID (idIn w (score_ID s)) s), None,
   dispatched IngestionEventTypeScoreCreate
     (BodyScore (Score_set_ID (idIn w (score_ID s)) s))
     (afterID (score_ID s) w)).
Proof.
  intros Hne. unfold Score.
  assert (String.eqb (score_TraceID s) "" && String.eqb (score_SessionID s) ""
          = false) as ->.
  { apply andb_false_iff.
    destruct Hne as [Hne|Hne]; [left|right]; by apply String.eqb_neq. }
  rewrite bind_run, buildID_run.
  by rewrite bind_run, dispatchNew_buildID_run.
Qed.

Lemma GenerationEnd_run (g : model.Generation) w :
  gen_ID g ≠ "" → gen_TraceID g ≠ "" →
  GenerationEnd g w =
  (Some g, None,
   dispatched IngestionEventTypeGenerationUpdate (BodyGeneration g) w).
Proof.
  intros Hid%String.eqb_neq Htrace%String.eqb_neq.
  unfold GenerationEnd. rewrite Hid, Htrace.
  by rewrite bind_run, dispatchNew_buildID_run.
Qed.

Lemma SpanEnd_run (s : model.Span) w :
  span_ID s ≠ "" → span_TraceID s ≠ "" →
  SpanEnd s w =
  (Some s, None, dispatched IngestionEventTypeSpanUpdate (BodySpan s) w).
Proof.
  intros Hid%String.eqb_neq Htrace%String.eqb_neq.
  unfold SpanEnd. rewrite Hid, Htrace.
  by rewrite bind_run, dispatchNew_buildID_run.
Qed.

Lemma idIn_nonempty w id : (∀ n, uuidNew n ≠ "") → idIn w id ≠ "".
Proof.
  intros Huuid. unfold idIn.
  destruct (String.eqb_spec id "") as [->|Hne]; [apply Huuid | done].
Qed.

Lemma idIn_given w id : id ≠ "" → idIn w id = id.
Proof. intros Hne%String.eqb_neq. unfold idIn. by rewrite Hne. Qed.

Lemma dispatched_observer ty body w :
  observer (dispatched ty body w) = (observer w ++ [eventIn w ty body])%list.
Proof. reflexivity. Qed.

Lemma afterID_observer id w : observer (afterID id w) = observer w.
Proof. unfold afterID. by destruct (String.eqb id ""). Qed.

Lemma afterID_clockReads id w : clockReads (afterID id w) = clockReads w.
Proof. unfold afterID. by destruct (String.eqb id ""). Qed.

(** X24.  Score refuses a score with neither a trace ID nor a session ID:
    it returns the error "either trace ID or session ID is required",
    draws no identifier and dispatches nothing.  Every other score is
    accepted: one score-create event carrying it is dispatched, and the
    score comes back with its own ID, or with a new one when it had
    none, and otherwise as it was. *)
Theorem Score_requires_trace_or_session (s : model.Score) w :
  (score_TraceID s = "" → score_SessionID s = "" →
     Score s w =
     (None, Some (errorString "either trace ID or session ID is required"),
      w)) ∧
  (score_TraceID s ≠ "" ∨ score_SessionID s ≠ "" →
     ∃ s' w',
       Score s w = (Some s', None, w') ∧
       s' = Score_set_ID (score_ID s') s ∧
       (score_ID s ≠ "" → s' = s) ∧
       (score_ID s = "" → score_ID s' = uuidNew (uuidsDrawn w)) ∧
       observer w' =
         (observer w
          ++ [{| ie_Type := "score-create";
                 ie_ID := uuidNew (uuidsDrawn (afterID (score_ID s) w));
                 ie_Timestamp := timeNow (clockReads w);
                 ie_Metadata := anyNil; ie_Body := BodyScore s' |}])%list).
Proof.
  split.
  - intros Ht Hs. unfold Score. by rewrite Ht, Hs.
  - intros Hne. rewrite (Score_run s w Hne).
    eexists _, _. split_and!; [done | done | | |].
    + intros Hid. rewrite idIn_given by done. by destruct s.
    + intros Hid. simpl. unfold idIn. by rewrite Hid.
    + rewrite dispatched_observer, afterID_observer.
      unfold eventIn. by rewrite afterID_clockReads.
Qed.

(** X25.  GenerationEnd and SpanEnd accept an observation exactly when
    its ID and its trace ID are both non-empty; a refused one changes
    nothing and dispatches nothing, the ID is checked before the trace
    ID, and SpanEnd reports a missing span ID as "generation ID is
    required". *)
Theorem End_requires_both_ids (g : model.Generation) (s : model.Span) w :
  ((GenerationEnd g w).1.2 = None ↔ gen_ID g ≠ "" ∧ gen_TraceID g ≠ "") ∧
  ((SpanEnd s w).1.2 = None ↔ span_ID s ≠ "" ∧ span_TraceID s ≠ "") ∧
  (is_Some (GenerationEnd g w).1.2 →
     (GenerationEnd g w).1.1 = None ∧ (GenerationEnd g w).2 = w) ∧
  (is_Some (SpanEnd s w).1.2 →
     (SpanEnd s w).1.1 = None ∧ (SpanEnd s w).2 = w) ∧
  (gen_ID g = "" →
     (GenerationEnd g w).1.2 = Some (errorString "generation ID is required")) ∧
  (gen_ID g ≠ "" → gen_TraceID g = "" →
     (GenerationEnd g w).1.2 = Some (errorString "trace ID is required")) ∧
  (span_ID s = "" →
     (SpanEnd s w).1.2 = Some (errorString "generation ID is required")) ∧
  (span_ID s ≠ "" → span_TraceID s = "" →
     (SpanEnd s w).1.2 = Some (errorString "trace ID is required")).
Proof.
  unfold GenerationEnd, SpanEnd.
  destruct (String.eqb_spec (gen_ID g) "") as [Hg|Hg],
    (String.eqb_spec (gen_TraceID g) "") as [Hgt|Hgt],
    (String.eqb_spec (span_ID s) "") as [Hs|Hs],
    (String.eqb_spec (span_TraceID s) "") as [Hst|Hst];
    rewrite ?bind_run, ?dispatchNew_buildID_run; cbn [ret fst snd];
    split_and!; try done; try (by intros [? ?]); try (by intros [??]);
    try (split; [done | by intros [? ?]]); try (by split).
Qed.

(** X26.  What Generation and Span return is accepted by GenerationEnd
    and SpanEnd: provided the identifiers drawn are never empty, the
    observation that comes back has an ID and a trace ID, and ending it
    returns it with a nil error and dispatches one update event. *)
Theorem create_then_end (g : model.Generation) (s : model.Span) parentID w :
  (∀ n, uuidNew n ≠ "") →
  (∃ g' w',
     Generation g parentID w = (Some g', None, w') ∧
     gen_ID g' ≠ "" ∧ gen_TraceID g' ≠ "" ∧
     GenerationEnd g' w' =
     (Some g', None,
      dispatched IngestionEventTypeGenerationUpdate (BodyGeneration g') w')) ∧
  (∃ s' w',
     Span s parentID w = (Some s', None, w') ∧
     span_ID s' ≠ "" ∧ span_TraceID s' ≠ "" ∧
     SpanEnd s' w' =
     (Some s', None,
      dispatched IngestionEventTypeSpanUpdate (BodySpan s') w')).
Proof.
  intros Huuid. split.
  - destruct (decide (gen_TraceID g = "")) as [Ht|Ht].
    + rewrite (Generation_run_untraced g parentID w Ht). cbv zeta.
      eexists _, _. split; [done|].
      assert (Hid : ∀ w1 tr p, gen_ID (Generation_set tr p (idIn w1 (gen_ID g)) g)
                               ≠ "") by (intros; by apply idIn_nonempty).
      split_and!; [apply Hid | apply Huuid |].
      apply GenerationEnd_run; [apply Hid | apply Huuid].
    + rewrite (Generation_run_traced g parentID w Ht). cbv zeta.
      eexists _, _. split; [done|].
      assert (Hid : ∀ w1 tr p, gen_ID (Generation_set tr p (idIn w1 (gen_ID g)) g)
                               ≠ "") by (intros; by apply idIn_nonempty).
      split_and!; [apply Hid | done |].
      apply GenerationEnd_run; [apply Hid | done].
  - destruct (decide (span_TraceID s = "")) as [Ht|Ht].
    + rewrite (Span_run_untraced s parentID w Ht). cbv zeta.
      eexists _, _. split; [done|].
      assert (Hid : ∀ w1 tr p, span_ID (Span_set tr p (idIn w1 (span_ID s)) s)
                               ≠ "") by (intros; by apply idIn_nonempty).
      split_and!; [apply Hid | apply Huuid |].
      apply SpanEnd_run; [apply Hid | apply Huuid].
    + rewrite (Span_run_traced s parentID w Ht). cbv zeta.
      eexists _, _. split; [done|].
      assert (Hid : ∀ w1 tr p, span_ID (Span_set tr p (idIn w1 (span_ID s)) s)
                               ≠ "") by (intros; by apply idIn_nonempty).
      split_and!; [apply Hid | done |].
      apply SpanEnd_run; [apply Hid | done].
Qed.

Lemma two_dispatches id ty1 body1 ty2 body2 w :
  observer (dispatched ty2 body2
              (afterID id (dispatched ty1 body1 (drew 1 w)))) =
  (observer w
   ++ [eventIn (drew 1 w) ty1 body1;
       eventIn (afterID id (dispatched ty1 body1 (drew 1 w))) ty2 body2])%list.
Proof.
  rewrite dispatched_observer, afterID_observer, dispatched_observer.
  by rewrite <- app_assoc.
Qed.

(** X27.  An observation without a trace ID gets a trace of its own:
    Generation, Span and Event then dispatch two events, first a
    trace-create for a new trace that bears the name of the observation
    and then their own create event, and the observation comes back with
    the ID of that trace as its trace ID.  With a trace ID they dispatch
    their own event only and keep the trace ID. *)
Theorem observation_gets_a_trace (g : model.Generation) (s : model.Span)
    (e : model.Event) parentID w :
  let newTrace name :=
    BodyTrace (Trace_set_ID (uuidNew (uuidsDrawn w)) (Trace_named name)) in
  (∃ g' w' evs,
     Generation g parentID w = (Some g', None, w') ∧
     observer w' = (observer w ++ evs)%list ∧
     if String.eqb (gen_TraceID g) "" then
       gen_TraceID g' = uuidNew (uuidsDrawn w) ∧
       ie_Type <$> evs = ["trace-create"; "generation-create"] ∧
       ie_Body <$> evs = [newTrace (gen_Name g); BodyGeneration g']
     else
       gen_TraceID g' = gen_TraceID g ∧
       ie_Type <$> evs = ["generation-create"] ∧
       ie_Body <$> evs = [BodyGeneration g']) ∧
  (∃ s' w' evs,
     Span s parentID w = (Some s', None, w') ∧
     observer w' = (observer w ++ evs)%list ∧
     if String.eqb (span_TraceID s) "" then
       span_TraceID s' = uuidNew (uuidsDrawn w) ∧
       ie_Type <$> evs = ["trace-create"; "span-create"] ∧
       ie_Body <$> evs = [newTrace (span_Name s); BodySpan s']
     else
       span_TraceID s' = span_TraceID s ∧
       ie_Type <$> evs = ["span-create"] ∧
       ie_Body <$> evs = [BodySpan s']) ∧
  (∃ e' w' evs,
     Event e parentID w = (Some e', None, w') ∧
     observer w' = (observer w ++ evs)%list ∧
     if String.eqb (event_TraceID e) "" then
       event_TraceID e' = uuidNew (uuidsDrawn w) ∧
       ie_Type <$> evs = ["trace-create"; "event-create"] ∧
       ie_Body <$> evs = [newTrace (event_Name e); BodyEvent e']
     else
       event_TraceID e' = event_TraceID e ∧
       ie_Type <$> evs = ["event-create"] ∧
       ie_Body <$> evs = [BodyEvent e']).
Proof.
  intros newTrace. split_and!.
  - destruct (String.eqb_spec (gen_TraceID g) "") as [Ht|Ht].
    + rewrite (Generation_run_untraced g parentID w Ht). cbv zeta.
      eexists _, _, _. split; [done|]. by rewrite two_dispatches.
    + rewrite (Generation_run_traced g parentID w Ht). cbv zeta.
      eexists _, _, _. split; [done|].
      by rewrite dispatched_observer, afterID_observer.
  - destruct (String.eqb_spec (span_TraceID s) "") as [Ht|Ht].
    + rewrite (Span_run_untraced s parentID w Ht). cbv zeta.
      eexists _, _, _. split; [done|]. by rewrite two_dispatches.
    + rewrite (Span_run_traced s parentID w Ht). cbv zeta.
      eexists _, _, _. split; [done|].
      by rewrite dispatched_observer, afterID_observer.
  - destruct (String.eqb_spec (event_TraceID e) "") as [Ht|Ht].
    + rewrite (Event_run_untraced e parentID w Ht). cbv zeta.
      eexists _, _, _. split; [done|]. by rewrite two_dispatches.
    + rewrite (Event_run_traced e parentID w Ht). cbv zeta.
      eexists _, _, _. split; [done|].
      by rewrite dispatched_observer, afterID_observer.
Qed.


Lemma timestamped_dispatched ty body w :
  timestamped w → timestamped (dispatched ty body w).
Proof.
  intros [Hlen Hall]. split.
  - simpl. rewrite length_app. simpl. lia.
  - intros k event. rewrite dispatched_observer.
    intros [Hk|[Hk Hev]]%lookup_app_Some.
    + by apply Hall.
    + apply list_lookup_singleton_Some in Hev as [Hk' <-].
      simpl. f_equal. lia.
Qed.

Lemma timestamped_drew n w : timestamped w → timestamped (drew n w).
Proof. done. Qed.

Lemma timestamped_afterID id w : timestamped w → timestamped (afterID id w).
Proof. unfold afterID. by destruct (String.eqb id ""). Qed.

(** X29.  Every event is stamped with the reading of the clock taken for
    it: if that holds of the events dispatched so far (the k-th event
    carries the k-th reading and no reading was taken for anything else),
    it holds after each of the seven calls, whether the call dispatches
    none, one or two events. *)
Theorem calls_keep_timestamped (t : model.Trace) (g : model.Generation)
    (sc : model.Score) (s : model.Span) (e : model.Event) parentID w :
  timestamped w →
  timestamped (Trace t w).2 ∧
  timestamped (Generation g parentID w).2 ∧
  timestamped (GenerationEnd g w).2 ∧
  timestamped (Score sc w).2 ∧
  timestamped (Span s parentID w).2 ∧
  timestamped (SpanEnd s w).2 ∧
  timestamped (Event e parentID w).2.
Proof.
  intros Hw.
  assert (Hstep : ∀ id ty body w0,
            timestamped w0 → timestamped (dispatched ty body (afterID id w0))).
  { intros. by apply timestamped_dispatched, timestamped_afterID. }
  split_and!.
  - rewrite Trace_run. by apply Hstep.
  - destruct (decide (gen_TraceID g = "")) as [Ht|Ht].
    + rewrite (Generation_run_untraced g parentID w Ht). cbv zeta.
      apply Hstep, timestamped_dispatched. done.
    + rewrite (Generation_run_traced g parentID w Ht). by apply Hstep.
  - unfold GenerationEnd.
    destruct (String.eqb (gen_ID g) ""); [done|].
    destruct (String.eqb (gen_TraceID g) ""); [done|].
    rewrite bind_run, dispatchNew_buildID_run.
    by apply timestamped_dispatched.
  - unfold Score.
    destruct (String.eqb (score_TraceID sc) "" &&
              String.eqb (score_SessionID sc) ""); [done|].
    rewrite bind_run, buildID_run, bind_run, dispatchNew_buildID_run.
    by apply Hstep.
  - destruct (decide (span_TraceID s = "")) as [Ht|Ht].
    + rewrite (Span_run_untraced s parentID w Ht). cbv zeta.
      apply Hstep, timestamped_dispatched. done.
    + rewrite (Span_run_traced s parentID w Ht). by apply Hstep.
  - unfold SpanEnd.
    destruct (String.eqb (span_ID s) ""); [done|].
    destruct (String.eqb (span_TraceID s) ""); [done|].
    rewrite bind_run, dispatchNew_buildID_run.
    by apply timestamped_dispatched.
  - destruct (decide (event_TraceID e = "")) as [Ht|Ht].
    + rewrite (Event_run_untraced e parentID w Ht). cbv zeta.
      apply Hstep, timestamped_dispatched. done.
    + rewrite (Event_run_traced e parentID w Ht). by apply Hstep.
Qed.

End IngestionFacts.





Lemma counting_nonempty n : langfuse.uuidNew (Runtime:=fixtures.counting) n ≠ "".
Proof. simpl. rewrite append_cons. discriminate. Qed.

Lemma create_then_end_witness :
  (∀ n, langfuse.uuidNew (Runtime:=fixtures.counting) n ≠ "") ∧
  (∃ g' w',
     langfuse.Generation (rt:=fixtures.counting) fixtures.llmCall None
       langfuse.started = (Some g', None, w') ∧
     model.gen_ID g' ≠ "" ∧ model.gen_TraceID g' ≠ "" ∧
     langfuse.GenerationEnd (rt:=fixtures.counting) g' w' =
     (Some g', None,
      langfuse.dispatched (rt:=fixtures.counting)
        model.IngestionEventTypeGenerationUpdate (model.BodyGeneration g') w')) ∧
  (∃ s' w',
     langfuse.Span (rt:=fixtures.counting) fixtures.retrieval None
       langfuse.started = (Some s', None, w') ∧
     model.span_ID s' ≠ "" ∧ model.span_TraceID s' ≠ "" ∧
     langfuse.SpanEnd (rt:=fixtures.counting) s' w' =
     (Some s', None,
      langfuse.dispatched (rt:=fixtures.counting)
        model.IngestionEventTypeSpanUpdate (model.BodySpan s') w')).
Proof.
  split; [exact counting_nonempty|].
  exact (create_then_end (rt:=fixtures.counting) fixtures.llmCall
           fixtures.retrieval None langfuse.started counting_nonempty).
Defined.

Lemma started_timestamped :
  langfuse.timestamped (rt:=fixtures.counting) langfuse.started.
Proof. split; [done|]. intros k event Hk. by destruct k. Qed.

Lemma calls_keep_timestamped_witness :
  langfuse.timestamped (rt:=fixtures.counting) langfuse.started ∧
  langfuse.timestamped (rt:=fixtures.counting)
    (langfuse.Generation (rt:=fixtures.counting) fixtures.llmCall None
       langfuse.started).2 ∧
  langfuse.timestamped (rt:=fixtures.counting)
    (langfuse.Score (rt:=fixtures.counting) fixtures.rating
       langfuse.started).2.
Proof.
  split; [exact started_timestamped|].
  pose proof (calls_keep_timestamped (rt:=fixtures.counting)
                (model.Trace_named "session") fixtures.llmCall
                fixtures.rating fixtures.retrieval fixtures.click None
                langfuse.started started_timestamped)
    as (_ & Hgen & _ & Hscore & _).
  by split.
Defined.

(* a generation without a trace: two events, the trace first *)
Example Generation_untraced_test :
  let r := langfuse.Generation (rt:=fixtures.counting) fixtures.llmCall
             (Some "parent-7") langfuse.started in
  (model.gen_TraceID <$> r.1.1, model.gen_ID <$> r.1.1,
   model.gen_ParentObservationID <$> r.1.1, r.1.2)
  = (Some "uuid-0", Some "uuid-2", Some "parent-7", None) ∧
  (λ ev, (model.ie_Type ev, model.ie_ID ev, model.ie_Timestamp ev))
    <$> langfuse.observer r.2
  = [("trace-create", "uuid-1", 0);
     ("generation-create", "uuid-3", 1000000)].
Proof. by vm_compute. Qed.
